(** * nb_hugo_exporter: the Hugo preprocessor

    A shallow embedding of [nbhugoexporter/hugopreprocessor.py] and the
    properties of its LaTeX extraction, LaTeX quoting and metadata
    defaulting.

    Python strings are modelled as lists of characters ([list ascii]); the
    string methods and the fragment of [re] the module uses are embedded as
    executable functions ([PyStr], [Re]).  None of them looks inside a
    character, except the case mapping behind [str.capitalize], which is
    modelled on the ASCII letters.  Exceptions are values of an error
    monad. *)

From Stdlib Require Import List Ascii String Arith Lia Bool ZArith.
Import ListNotations.
Open Scope string_scope.
Open Scope list_scope.

Set Implicit Arguments.

(** ** Strings *)

Definition str := list ascii.
Coercion list_ascii_of_string : string >-> list.

Definition backslash : ascii := "\"%char.
Definition dollar : ascii := "$"%char.
Definition underscore : ascii := "_"%char.
Definition asterisk : ascii := "*"%char.
Definition newline : ascii := "010"%char.

Module PyStr.

(** [s.startswith(p)] *)
Fixpoint startswith (s p : str) {struct p} : bool :=
  match p, s with
  | [], _ => true
  | _ :: _, [] => false
  | x :: p', y :: s' => Ascii.eqb x y && startswith s' p'
  end.

(** The scan of [str.replace]: occurrences of [old] are taken from left to
    right and do not overlap.  [skip] counts the characters of the
    occurrence just replaced that are still to be passed over. *)
Fixpoint replace_from (old new : str) (skip : nat) (s : str) : str :=
  match s with
  | [] => []
  | c :: r =>
      match skip with
      | S k => replace_from old new k r
      | O =>
          if startswith s old
          then new ++ replace_from old new (List.length old - 1) r
          else c :: replace_from old new 0 r
      end
  end.

(** [s.replace(old, new)].  With an empty [old], Python inserts [new]
    before every character and at the end. *)
Definition replace (s old new : str) : str :=
  match old with
  | [] => new ++ flat_map (fun c => c :: new) s
  | _ :: _ => replace_from old new 0 s
  end.

(** The scan of [str.split(sep)], same discipline as [replace_from]. *)
Fixpoint split_from (sep : str) (skip : nat) (s : str) : list str :=
  match s with
  | [] => [[]]
  | c :: r =>
      match skip with
      | S k => split_from sep k r
      | O =>
          if startswith s sep
          then [] :: split_from sep (List.length sep - 1) r
          else match split_from sep 0 r with
               | p :: ps => (c :: p) :: ps
               | [] => [[c]]
               end
      end
  end.

(** [s.split(sep)] for a non-empty [sep].  Python raises [ValueError] on an
    empty separator; the preprocessor only splits on the literals
    ['\n\n'] and ['_'], and the lemmas below assume [sep <> []]. *)
Definition split (s sep : str) : list str := split_from sep 0 s.

(** [sep.join(l)] *)
Fixpoint join (sep : str) (l : list str) : str :=
  match l with
  | [] => []
  | [p] => p
  | p :: ps => p ++ sep ++ join sep ps
  end.

(** Case mapping, on the ASCII letters. *)
Definition upper_char (c : ascii) : ascii :=
  let n := nat_of_ascii c in
  if (Nat.leb 97 n && Nat.leb n 122)%bool then ascii_of_nat (n - 32) else c.

Definition lower_char (c : ascii) : ascii :=
  let n := nat_of_ascii c in
  if (Nat.leb 65 n && Nat.leb n 90)%bool then ascii_of_nat (n + 32) else c.

(** [s.capitalize()]: first character upper-cased, the rest lower-cased. *)
Definition capitalize (s : str) : str :=
  match s with
  | [] => []
  | c :: r => upper_char c :: map lower_char r
  end.

(** Strings of ASCII characters, the ones on which [capitalize] is what
    Python's [str.capitalize] does. *)
Definition is_ascii (s : str) : bool :=
  forallb (fun c => Nat.ltb (nat_of_ascii c) 128) s.

(** Slices with a negative bound: [s[:-n]] and [s[-n:]]. *)
Definition slice_to_neg (s : str) (n : nat) : str := firstn (List.length s - n) s.
Definition slice_from_neg (s : str) (n : nat) : str := skipn (List.length s - n) s.

(** [s[a:b]] for [0 <= a], [0 <= b]. *)
Definition slice (s : str) (a b : nat) : str := firstn (b - a) (skipn a s).

End PyStr.

(** ** The fragment of [re] used by the preprocessor

    A backtracking matcher in continuation-passing style: alternatives are
    tried in order, a lazy repetition first tries to continue and only then
    takes one more character.  Patterns carry at most one capturing group. *)

Module Re.

(** Sets of single characters. [AnyChar] is [.] under [re.DOTALL]. *)
Inductive cset : Type :=
| AnyChar
| Lit (c : ascii)
| NoneOf (l : list ascii).

Definition cset_mem (cs : cset) (x : ascii) : bool :=
  match cs with
  | AnyChar => true
  | Lit c => Ascii.eqb c x
  | NoneOf l => negb (existsb (Ascii.eqb x) l)
  end.

Inductive regex : Type :=
| Bol                       (* [^], without [re.MULTILINE] *)
| Chr (cs : cset)           (* one character of a set *)
| Cat (a b : regex)         (* [ab] *)
| Alt (a b : regex)         (* [a|b] *)
| LazyStar (cs : cset)      (* [x*?] over a set of characters *)
| Group (r : regex).        (* [(r)], the capturing group *)

(** Matcher state: absolute position, text still to read, span of the
    group when it has been closed. *)
Record mstate : Type := MState {
  pos : nat;
  rest : str;
  grp : option (nat * nat)
}.

Definition cont := mstate -> option mstate.

Fixpoint lazy_loop (cs : cset) (k : cont) (p : nat) (g : option (nat * nat))
         (s : str) : option mstate :=
  match k (MState p s g) with
  | Some res => Some res
  | None =>
      match s with
      | x :: s' => if cset_mem cs x then lazy_loop cs k (S p) g s' else None
      | [] => None
      end
  end.

Fixpoint run (r : regex) (st : mstate) (k : cont) : option mstate :=
  match r with
  | Bol => if Nat.eqb (pos st) 0 then k st else None
  | Chr cs =>
      match rest st with
      | x :: s' => if cset_mem cs x then k (MState (S (pos st)) s' (grp st))
                   else None
      | [] => None
      end
  | Cat a b => run a st (fun st' => run b st' k)
  | Alt a b =>
      match run a st k with
      | Some res => Some res
      | None => run b st k
      end
  | LazyStar cs => lazy_loop cs k (pos st) (grp st) (rest st)
  | Group a =>
      run a st (fun st' => k (MState (pos st') (rest st')
                                     (Some (pos st, pos st'))))
  end.

(** A match attempt anchored at position [p], the text from [p] on being
    [s]. *)
Definition match_at (r : regex) (p : nat) (s : str) : option mstate :=
  run r (MState p s None) Some.

(** Leftmost match starting at [p] or later: the start and the final
    state. *)
Fixpoint search (r : regex) (p : nat) (s : str) : option (nat * mstate) :=
  match match_at r p s with
  | Some res => Some (p, res)
  | None =>
      match s with
      | _ :: s' => search r (S p) s'
      | [] => None
      end
  end.

(** Successive non-overlapping matches, each search resuming where the
    previous match ended (one character later after an empty match). *)
Fixpoint finditer (fuel : nat) (r : regex) (p : nat) (s : str)
  : list (nat * mstate) :=
  match fuel with
  | O => []
  | S fuel' =>
      match search r p s with
      | None => []
      | Some (b, res) =>
          (b, res) ::
            (if Nat.ltb b (pos res)
             then finditer fuel' r (pos res) (rest res)
             else match rest res with
                  | _ :: s' => finditer fuel' r (S (pos res)) s'
                  | [] => []
                  end)
      end
  end.

(** Spans of the capturing group in the successive matches of [r] in [s]. *)
Definition group_spans (r : regex) (s : str) : list (option (nat * nat)) :=
  map (fun m => grp (snd m)) (finditer (S (List.length s)) r 0 s).

(** Text of a group: empty when the group took no part in the match. *)
Definition group_text (s : str) (g : option (nat * nat)) : str :=
  match g with
  | Some (a, b) => PyStr.slice s a b
  | None => []
  end.

(** [re.findall(r, s)] for a pattern with one group: the list of the
    group's texts. *)
Definition findall (r : regex) (s : str) : list str :=
  map (group_text s) (group_spans r s).

End Re.

(** ** Exceptions *)

Inductive exn : Type := KeyError | AttributeError | OSError.

Inductive result (A : Type) : Type :=
| Ok (a : A)
| Raise (e : exn).
Arguments Ok {A} a.
Arguments Raise {A} e.

Definition bind {A B : Type} (m : result A) (f : A -> result B) : result B :=
  match m with
  | Ok a => f a
  | Raise e => Raise e
  end.

Notation "x <- m ;; k" := (bind m (fun x => k))
  (at level 61, m at next level, right associativity).

(** A [for] loop that rebuilds a list element by element, stopping at the
    first exception. *)
Fixpoint mapM {A B : Type} (f : A -> result B) (l : list A) : result (list B) :=
  match l with
  | [] => Ok []
  | a :: l' => b <- f a ;; bs <- mapM f l' ;; Ok (b :: bs)
  end.

(** ** Notebook values

    The JSON values a notebook holds, numbers being integers.  A mapping
    keeps its keys in insertion order, as a Python [dict] does. *)

#[warnings="-register-all"] Inductive pyval : Type :=
| VNone
| VBool (b : bool)
| VInt (z : Z)
| VStr (s : str)
| VList (l : list pyval)
| VDict (d : list (str * pyval)).

Definition dict := list (str * pyval).

Fixpoint str_eqb (a b : str) : bool :=
  match a, b with
  | [], [] => true
  | x :: a', y :: b' => Ascii.eqb x y && str_eqb a' b'
  | _, _ => false
  end.

(** Truth value of an object, as [or] and [if] test it. *)
Definition truthy (v : pyval) : bool :=
  match v with
  | VNone => false
  | VBool b => b
  | VInt z => negb (Z.eqb z 0)
  | VStr s => match s with [] => false | _ :: _ => true end
  | VList l => match l with [] => false | _ :: _ => true end
  | VDict d => match d with [] => false | _ :: _ => true end
  end.

(** [d.get(k)]: [None] stands for an absent key. *)
Fixpoint dict_get (d : dict) (k : str) : option pyval :=
  match d with
  | [] => None
  | (k', v) :: d' => if str_eqb k' k then Some v else dict_get d' k
  end.

(** [d[k] = v]: the value of a present key is replaced where it stands, a
    new key goes to the end. *)
Fixpoint dict_set (d : dict) (k : str) (v : pyval) : dict :=
  match d with
  | [] => [(k, v)]
  | (k', v') :: d' =>
      if str_eqb k' k then (k', v) :: d' else (k', v') :: dict_set d' k v
  end.

(** [d.get(k, default)] *)
Definition dict_get_default (d : dict) (k : str) (default : pyval) : pyval :=
  match dict_get d k with
  | Some v => v
  | None => default
  end.

(** [d.get(k) or other]: the stored value when it is truthy, [other] when
    the key is absent or its value falsy. *)
Definition get_or (d : dict) (k : str) (other : pyval) : pyval :=
  match dict_get d k with
  | Some v => if truthy v then v else other
  | None => other
  end.

(** ** Notebooks *)

Record cell : Type := Cell {
  cell_type : str;
  source : str;
  outputs : list dict
}.

Record notebook : Type := Notebook {
  metadata : dict;
  cells : list cell
}.

(** [resources['metadata']['path']] and [resources['metadata']['name']]. *)
Record resources : Type := Resources {
  path : str;
  name : str
}.

(** [os.path.join(a, b)] on POSIX. *)
Definition os_path_join (a b : str) : str :=
  if PyStr.startswith b "/" then b
  else match a with
       | [] => b
       | _ :: _ => if Ascii.eqb (last a " "%char) "/"%char then a ++ b
                   else a ++ "/" ++ b
       end.

(** ** HugoPreprocessor *)

(** [quoted_latex], the local of [_clean_latex] after its three
    assignments. *)
Definition quoted_latex (latex : str) : str :=
  let quoted_latex := PyStr.replace latex "\\" "\newline" in
  let quoted_latex := PyStr.replace quoted_latex "_" "\_" in
  let quoted_latex := PyStr.replace quoted_latex "*" "\*" in
  quoted_latex.

Definition _clean_latex (text latex : str) : str :=
  PyStr.replace text latex (quoted_latex latex).

(** [(?:^|[^\\])(\$\$.*?[^\\]\$\$)] *)
Definition display_math : Re.regex :=
  Re.Cat (Re.Alt Re.Bol (Re.Chr (Re.NoneOf [backslash])))
    (Re.Group
       (Re.Cat (Re.Chr (Re.Lit dollar))
       (Re.Cat (Re.Chr (Re.Lit dollar))
       (Re.Cat (Re.LazyStar Re.AnyChar)
       (Re.Cat (Re.Chr (Re.NoneOf [backslash]))
       (Re.Cat (Re.Chr (Re.Lit dollar))
               (Re.Chr (Re.Lit dollar)))))))).

(** [[^\$\\](\$.*?[^\\]\$)] *)
Definition inline_math : Re.regex :=
  Re.Cat (Re.Chr (Re.NoneOf [dollar; backslash]))
    (Re.Group
       (Re.Cat (Re.Chr (Re.Lit dollar))
       (Re.Cat (Re.LazyStar Re.AnyChar)
       (Re.Cat (Re.Chr (Re.NoneOf [backslash]))
               (Re.Chr (Re.Lit dollar)))))).

Definition paragraph_break : str := [newline; newline].

Definition _extract_latex (markdown : str) : list str :=
  let out := Re.findall display_math markdown in
  fold_left (fun out block => out ++ Re.findall inline_math block)
            (PyStr.split markdown paragraph_break) out.

Section Environment.

(** What the preprocessor asks of its surroundings: the modification time
    of a file ([None] when [os.path.getmtime] raises [OSError]) and
    [ts.astimezone(local_tz).strftime('%Y-%m-%dT%H:%M:%S%z')]. *)
Variable datetime : Type.
Variable getmtime : str -> option datetime.
Variable strftime_local : datetime -> str.

Definition _time_format_hugo (ts : datetime) : str :=
  let out := strftime_local ts in
  PyStr.slice_to_neg out 2 ++ ":" ++ PyStr.slice_from_neg out 2.

Definition clean_output (o : dict) : result dict :=
  data <- match dict_get o "data" with
          | None => Ok []
          | Some (VDict d) => Ok d
          | Some _ => Raise AttributeError
          end ;;
  match dict_get data "text/latex" with
  | None => Ok o
  | Some latex =>
      if truthy latex then
        match latex with
        | VStr l =>
            Ok (dict_set o "data"
                  (VDict (dict_set data "text/latex"
                            (VStr (_clean_latex l l)))))
        | _ => Raise AttributeError
        end
      else Ok o
  end.

Definition preprocess_cell (c : cell) (res : resources) (cell_index : nat)
  : result (cell * resources) :=
  if str_eqb (cell_type c) "markdown" then
    let latex_segments := _extract_latex (source c) in
    let src := fold_left _clean_latex latex_segments (source c) in
    Ok (Cell (cell_type c) src (outputs c), res)
  else if str_eqb (cell_type c) "code" then
    outs <- mapM clean_output (outputs c) ;;
    Ok (Cell (cell_type c) (source c) outs, res)
  else Ok (c, res).

(** The loop over [enumerate(nb.cells)]. *)
Fixpoint preprocess_cells (cs : list cell) (res : resources) (index : nat)
  : result (list cell * resources) :=
  match cs with
  | [] => Ok ([], res)
  | c :: cs' =>
      cr <- preprocess_cell c res index ;;
      rest <- preprocess_cells cs' (snd cr) (S index) ;;
      Ok (fst cr :: fst rest, snd rest)
  end.

(** The title computed from the file name. *)
Definition default_title (name : str) : str :=
  PyStr.join " " (map PyStr.capitalize (PyStr.split name "_")).

Definition preprocess (nb : notebook) (res : resources)
  : result (notebook * resources) :=
  let nb_metadata :=
    match dict_get (metadata nb) "hugo" with
    | None | Some VNone => dict_set (metadata nb) "hugo" (VDict [])
    | Some _ => metadata nb
    end in
  hugo <- match dict_get nb_metadata "hugo" with
          | Some v => Ok v
          | None => Raise KeyError
          end ;;
  let file_path := os_path_join (path res) (name res ++ ".ipynb") in
  ts <- match getmtime file_path with
        | Some ts => Ok ts
        | None => Raise OSError
        end ;;
  hugo <- match hugo with
          | VDict h => Ok h
          | _ => Raise AttributeError
          end ;;
  let hugo := dict_set hugo "date"
                (get_or hugo "date" (VStr (_time_format_hugo ts))) in
  let title := default_title (name res) in
  let hugo := dict_set hugo "title" (get_or hugo "title" (VStr title)) in
  let hugo := dict_set hugo "draft"
                (dict_get_default hugo "draft" (VBool true)) in
  let nb_metadata := dict_set nb_metadata "hugo" (VDict hugo) in
  cr <- preprocess_cells (cells nb) res 0 ;;
  Ok (Notebook nb_metadata (fst cr), snd cr).

(** The hugo mapping after the three defaulting assignments. *)
Definition hugo_defaults (h : dict) (ts : datetime) (name : str) : dict :=
  let h := dict_set h "date"
             (get_or h "date" (VStr (_time_format_hugo ts))) in
  let h := dict_set h "title" (get_or h "title" (VStr (default_title name))) in
  dict_set h "draft" (dict_get_default h "draft" (VBool true)).

End Environment.

(** ** Occurrences of a substring *)

Definition occurs (l t : str) : Prop := exists a b, t = a ++ l ++ b.

(** Number of positions of [t] at which [l] occurs, overlapping occurrences
    included. *)
Fixpoint count_occurrences (t l : str) : nat :=
  (if PyStr.startswith t l then 1 else 0)
  + match t with
    | [] => 0
    | _ :: r => count_occurrences r l
    end.

Definition occurs_at (t l : str) (i : nat) : Prop :=
  i <= List.length t /\ PyStr.startswith (skipn i t) l = true.

Definition non_overlapping (t l : str) : Prop :=
  forall i j, occurs_at t l i -> occurs_at t l j -> i < j ->
              i + List.length l <= j.

(** ** What a quoted segment looks like *)

(** The characters Markdown reads as emphasis. *)
Definition special (c : ascii) : Prop := c = underscore \/ c = asterisk.

(** Every [_] and [*] of [q] stands directly after a backslash. *)
Definition all_escaped (q : str) : Prop :=
  forall a c b, q = a ++ c :: b -> special c -> exists a', a = a' ++ [backslash].

Definition no_double_backslash (q : str) : Prop :=
  ~ occurs [backslash; backslash] q.

(** Two adjacent backslashes only stand directly before a [_] or [*]. *)
Definition double_backslash_before_special (q : str) : Prop :=
  forall a b, q = a ++ backslash :: backslash :: b ->
              exists c b', b = c :: b' /\ special c.

(** Replacement of all the occurrences counted by [count_occurrences]. *)
Definition all_occurrences_replaced (text latex : str) : Prop :=
  exists ps, List.length ps = S (count_occurrences text latex)
             /\ text = PyStr.join latex ps
             /\ _clean_latex text latex = PyStr.join (quoted_latex latex) ps.


(** ** Scans used to reason about quoting *)

(** [s.replace(c, '\' + c)] for a single character [c], as a map over the
    characters. *)
Definition escape_char (c : ascii) (s : str) : str :=
  flat_map (fun x => if Ascii.eqb c x then [backslash; c] else [x]) s.

(** Scan checking that every character of [special] directly follows a
    backslash; [prev] tells whether the character before [s] is one. *)
Fixpoint escaped_from (prev : bool) (special : ascii -> bool) (s : str) : bool :=
  match s with
  | [] => true
  | x :: t =>
      (if special x then prev else true)
      && escaped_from (Ascii.eqb x backslash) special t
  end.

(** Number of backslashes that end the text read so far: none, one, or two
    and more. *)
Inductive bs_run : Type := B0 | B1 | B2.

Definition bs_next (st : bs_run) (x : ascii) : bs_run :=
  if Ascii.eqb x backslash
  then match st with B0 => B1 | _ => B2 end
  else B0.

(** Scan checking that every pair of adjacent backslashes is directly
    followed by a character of [follow]. *)
Fixpoint dbl_ok (st : bs_run) (follow : ascii -> bool) (s : str) : bool :=
  match s with
  | [] => match st with B2 => false | _ => true end
  | x :: t =>
      (match st with B2 => follow x | _ => true end)
      && dbl_ok (bs_next st x) follow t
  end.

Definition head_is_backslash (s : str) : bool :=
  match s with
  | x :: _ => Ascii.eqb x backslash
  | [] => false
  end.

(** ** Matcher states *)

(** [st'] is reached from [st] by reading some characters. *)
Definition extends (st st' : Re.mstate) : Prop :=
  exists w, Re.rest st = w ++ Re.rest st'
            /\ Re.pos st' = Re.pos st + List.length w.

(** ** Metadata and outputs *)

(** The hugo mapping [preprocess] starts from: empty when the notebook has
    none (or [None]), undefined when the entry is not a mapping. *)
Definition hugo_before (nb : notebook) : option dict :=
  match dict_get (metadata nb) "hugo" with
  | None | Some VNone => Some []
  | Some (VDict h) => Some h
  | Some _ => None
  end.

Definition hugo_of (nb : notebook) : option dict :=
  match dict_get (metadata nb) "hugo" with
  | Some (VDict h) => Some h
  | _ => None
  end.

Definition is_str (v : pyval) : bool :=
  match v with VStr _ => true | _ => false end.

(** Outputs on which [clean_output] raises nothing: [data], when present, is
    a mapping, and a truthy [text/latex] payload is a string. *)
Definition output_wf (o : dict) : bool :=
  match dict_get o "data" with
  | None => true
  | Some (VDict d) =>
      match dict_get d "text/latex" with
      | None => true
      | Some v => negb (truthy v) || is_str v
      end
  | Some _ => false
  end.

(** Cells on which [preprocess_cell] raises nothing. *)
Definition cell_wf (c : cell) : bool :=
  if str_eqb (cell_type c) "markdown" then true
  else if str_eqb (cell_type c) "code" then forallb output_wf (outputs c)
  else true.

(** The title as the specification words it: only the first letter of each
    segment changes. *)
Definition capitalize_first (s : str) : str :=
  match s with
  | [] => []
  | c :: r => PyStr.upper_char c :: r
  end.

Definition title_by_spec (name : str) : str :=
  PyStr.join " " (map capitalize_first (PyStr.split name "_")).

Definition hugo_keys : list str := ["date" : str; "title" : str; "draft" : str].

(** Every value already set under [date], [title] or [draft] survives
    [preprocess]. *)
Definition set_values_kept (datetime : Type) (getmtime : str -> option datetime)
           (strftime_local : datetime -> str) (nb : notebook) (res : resources)
  : Prop :=
  forall k v h nb' res',
    In k hugo_keys ->
    hugo_before nb = Some h -> dict_get h k = Some v ->
    preprocess getmtime strftime_local nb res = Ok (nb', res') ->
    exists h', hugo_of nb' = Some h' /\ dict_get h' k = Some v.


(** ** Example inputs *)

Definition display_example : str :=
  ("Display:" : str) ++ [newline] ++ "$$x_1 + x_2$$" ++ [newline] ++ "more".

Definition paragraphs_example : str :=
  ("para one $a$" : str) ++ paragraph_break ++ "para two $b$".

(** A notebook [posts/my_first_post.ipynb], last modified at
    2020-01-02 03:04:05 local time, one hour east of UTC. *)
Definition example_resources : resources := Resources "posts" "my_first_post".

Definition example_getmtime (file_path : str) : option Z :=
  if str_eqb file_path "posts/my_first_post.ipynb" then Some 1577930645%Z
  else None.

Definition example_strftime (ts : Z) : str := "2020-01-02T03:04:05+0100".

Definition latex_output (payload : str) : dict :=
  [("output_type" : str, VStr "display_data");
   ("data" : str, VDict [("text/plain" : str, VStr "<IPython.core.display.Math object>");
                         ("text/latex" : str, VStr payload)])].

Definition example_code_cell : cell :=
  Cell "code" "display(Math('x_y'))" [latex_output "$x_y$"].

Definition example_markdown_cell : cell :=
  Cell "markdown" "Inline $a_b$ math" [].

Definition example_notebook (hugo : dict) : notebook :=
  Notebook [("hugo" : str, VDict hugo)] [example_markdown_cell; example_code_cell].


(** * Runs on the documented examples *)

Example extract_inline_example :
  _extract_latex "Inline $a_b$ math" = ["$a_b$" : str].
Proof. vm_compute. reflexivity. Qed.

Example extract_escaped_dollar_example :
  _extract_latex "costs \$5, not $x_1$" = ["$x_1$" : str].
Proof. vm_compute. reflexivity. Qed.

Example clean_latex_example :
  _clean_latex "text $a_b$ end" "$a_b$" = "text $a\_b$ end".
Proof. vm_compute. reflexivity. Qed.

Example clean_latex_newline_example :
  _clean_latex "$$a \\ b^*$$" "$$a \\ b^*$$" = "$$a \newline b^\*$$".
Proof. vm_compute. reflexivity. Qed.

Example replace_empty_example :
  PyStr.replace "abc" [] "-" = "-a-b-c-".
Proof. reflexivity. Qed.

Example replace_overlap_example :
  PyStr.replace "aaa" "aa" "b" = "ba".
Proof. reflexivity. Qed.

Example split_example :
  PyStr.split "a__b_" "_" = ["a" : str; [] : str; "b" : str; [] : str].
Proof. reflexivity. Qed.

Example time_format_example :
  _time_format_hugo (fun _ : unit => "2020-01-02T03:04:05+0100" : str) tt
  = "2020-01-02T03:04:05+01:00".
Proof. reflexivity. Qed.

Example markdown_cell_example :
  preprocess_cell (Cell "markdown" "Inline $a_b$ math" []) (Resources "." "nb") 0
  = Ok (Cell "markdown" "Inline $a\_b$ math" [], Resources "." "nb").
Proof. vm_compute. reflexivity. Qed.

(** * Properties *)

(** ** Scanning for a substring *)

Module PyStrFacts.
Import PyStr.

Lemma startswith_app (p s : str) : startswith (p ++ s) p = true.
Proof.
  induction p as [|x p IH]; simpl; [reflexivity|].
  now rewrite Ascii.eqb_refl.
Qed.

Lemma startswith_inv (s p : str) :
  startswith s p = true -> exists r, s = p ++ r.
Proof.
  revert s; induction p as [|x p IH]; intros s H.
  - now exists s.
  - destruct s as [|y s]; simpl in H; [discriminate|].
    apply andb_true_iff in H as [Hxy Hp].
    apply Ascii.eqb_eq in Hxy; subst y.
    destruct (IH _ Hp) as [r ->]. now exists r.
Qed.

(** Induction along the scan shared by [replace] and [split]. *)
Lemma scan_ind (sep : str) (Hsep : sep <> []) (P : str -> Prop) :
  P [] ->
  (forall r, P r -> P (sep ++ r)) ->
  (forall c r, startswith (c :: r) sep = false -> P r -> P (c :: r)) ->
  forall s, P s.
Proof.
  intros Hnil Hhit Hmiss s.
  remember (List.length s) as n eqn:Hn.
  revert s Hn; induction n as [n IH] using lt_wf_ind; intros s Hn.
  destruct s as [|c r]; [exact Hnil|].
  destruct (startswith (c :: r) sep) eqn:E.
  - destruct (startswith_inv _ _ E) as [r' Hr]. rewrite Hr.
    apply Hhit. apply (IH (List.length r')); [|reflexivity].
    subst n. rewrite Hr, length_app.
    destruct sep; [congruence | simpl; lia].
  - apply Hmiss; [exact E|].
    apply (IH (List.length r)); [subst n; simpl; lia | reflexivity].
Qed.

Lemma replace_from_skip (old new x r : str) :
  replace_from old new (List.length x) (x ++ r) = replace_from old new 0 r.
Proof. induction x as [|a x IH]; simpl; [reflexivity | exact IH]. Qed.

Lemma replace_hit (old new r : str) :
  old <> [] -> replace (old ++ r) old new = new ++ replace r old new.
Proof.
  destruct old as [|c old]; [congruence|]; intros _.
  unfold replace. change ((c :: old) ++ r) with (c :: (old ++ r)).
  cbn [replace_from].
  change (c :: old ++ r) with ((c :: old) ++ r).
  rewrite startswith_app. f_equal.
  replace (List.length (c :: old) - 1) with (List.length old) by (simpl; lia).
  apply replace_from_skip.
Qed.

Lemma replace_miss (old new : str) (c : ascii) (r : str) :
  old <> [] -> startswith (c :: r) old = false ->
  replace (c :: r) old new = c :: replace r old new.
Proof.
  destruct old as [|d old]; [congruence|]; intros _ H.
  unfold replace. cbn [replace_from]. now rewrite H.
Qed.

Lemma replace_nil (old new : str) : old <> [] -> replace [] old new = [].
Proof. destruct old; [congruence | reflexivity]. Qed.

Lemma split_from_skip (sep x r : str) :
  split_from sep (List.length x) (x ++ r) = split_from sep 0 r.
Proof. induction x as [|a x IH]; simpl; [reflexivity | exact IH]. Qed.

Lemma split_from_nonempty (sep : str) (k : nat) (s : str) :
  split_from sep k s <> [].
Proof.
  revert k; induction s as [|c r IH]; intros k; simpl; [discriminate|].
  destruct k; [|apply IH].
  destruct (startswith (c :: r) sep); [discriminate|].
  destruct (split_from sep 0 r); discriminate.
Qed.

Lemma split_nonempty (s sep : str) : exists p ps, split s sep = p :: ps.
Proof.
  unfold split. pose proof (split_from_nonempty sep 0 s) as H.
  destruct (split_from sep 0 s) as [|p ps]; [congruence | eauto].
Qed.

Lemma split_hit (sep r : str) :
  sep <> [] -> split (sep ++ r) sep = [] :: split r sep.
Proof.
  destruct sep as [|c sep]; [congruence|]; intros _.
  unfold split. change ((c :: sep) ++ r) with (c :: (sep ++ r)).
  cbn [split_from].
  change (c :: sep ++ r) with ((c :: sep) ++ r).
  rewrite startswith_app. f_equal.
  replace (List.length (c :: sep) - 1) with (List.length sep) by (simpl; lia).
  apply split_from_skip.
Qed.

Lemma split_miss (sep : str) (c : ascii) (r : str) :
  startswith (c :: r) sep = false ->
  exists p ps, split r sep = p :: ps /\ split (c :: r) sep = (c :: p) :: ps.
Proof.
  intros H. destruct (split_nonempty r sep) as (p & ps & E).
  exists p, ps. split; [exact E|].
  unfold split in *. cbn [split_from]. now rewrite H, E.
Qed.

Lemma join_cons_char (sep : str) (c : ascii) (p : str) (ps : list str) :
  join sep ((c :: p) :: ps) = c :: join sep (p :: ps).
Proof. destruct ps; reflexivity. Qed.

Lemma join_cons_nil (sep p : str) (ps : list str) :
  join sep ([] :: p :: ps) = sep ++ join sep (p :: ps).
Proof. reflexivity. Qed.

(** Joining the pieces of a split with the separator gives the text
    back. *)
Lemma join_split (s sep : str) : sep <> [] -> join sep (split s sep) = s.
Proof.
  intros Hsep. induction s as [|r IH|c r Hc IH] using (scan_ind Hsep).
  - reflexivity.
  - rewrite split_hit by assumption.
    destruct (split_nonempty r sep) as (p & ps & E).
    rewrite E in *. rewrite join_cons_nil. now rewrite IH.
  - destruct (split_miss _ _ _ Hc) as (p & ps & E & ->).
    rewrite join_cons_char. rewrite E in IH. now rewrite IH.
Qed.

(** [replace] puts [new] wherever [split] found the separator. *)
Lemma replace_join_split (s old new : str) :
  old <> [] -> replace s old new = join new (split s old).
Proof.
  intros Hold. induction s as [|r IH|c r Hc IH] using (scan_ind Hold).
  - now rewrite replace_nil.
  - rewrite replace_hit, split_hit by assumption.
    destruct (split_nonempty r old) as (p & ps & E).
    rewrite E in *. rewrite join_cons_nil. now rewrite IH.
  - rewrite replace_miss by assumption.
    destruct (split_miss _ _ _ Hc) as (p & ps & E & ->).
    rewrite join_cons_char. rewrite E in IH. now rewrite IH.
Qed.

End PyStrFacts.

(** ** Occurrences *)

Module OccurFacts.
Import PyStr PyStrFacts.

Lemma occurs_nil (l : str) : occurs l [] -> l = [].
Proof.
  intros (a & b & H). symmetry in H.
  apply app_eq_nil in H as [_ H]. now apply app_eq_nil in H as [H _].
Qed.

Lemma occurs_head (l r : str) : occurs l (l ++ r).
Proof. now exists [], r. Qed.

Lemma occurs_cons (l : str) (c : ascii) (r : str) :
  occurs l r -> occurs l (c :: r).
Proof. intros (a & b & ->). now exists (c :: a), b. Qed.

Lemma occurs_cons_inv (l : str) (c : ascii) (r : str) :
  occurs l (c :: r) -> startswith (c :: r) l = true \/ occurs l r.
Proof.
  intros (a & b & H). destruct a as [|y a].
  - left. cbn [app] in H. rewrite H. apply startswith_app.
  - right. injection H as _ ->. now exists a, b.
Qed.

Lemma startswith_app_l (s t p : str) :
  startswith s p = true -> startswith (s ++ t) p = true.
Proof.
  intros H. destruct (startswith_inv _ _ H) as [r ->].
  rewrite <- app_assoc. apply startswith_app.
Qed.

Lemma join_head (sep p : str) (ps : list str) :
  exists t, join sep (p :: ps) = p ++ t.
Proof.
  destruct ps as [|q ps].
  - exists []. cbn. now rewrite app_nil_r.
  - now exists (sep ++ join sep (q :: ps)).
Qed.

(** No piece of a split contains the separator. *)
Lemma split_piece_free (s sep : str) :
  sep <> [] -> forall p, In p (split s sep) -> ~ occurs sep p.
Proof.
  intros Hsep. induction s as [|r IH|c r Hc IH] using (scan_ind Hsep).
  - intros p [<- | []] H. now apply occurs_nil in H.
  - rewrite split_hit by assumption. intros p [<- | Hp].
    + intros H. now apply occurs_nil in H.
    + now apply IH.
  - destruct (split_miss _ _ _ Hc) as (p0 & ps & E & ->).
    rewrite E in IH. intros p [<- | Hp].
    + intros H. apply occurs_cons_inv in H as [H | H].
      * destruct (join_head sep p0 ps) as [t Ht].
        rewrite <- E, join_split in Ht by assumption.
        apply (startswith_app_l _ t) in H.
        cbn [app] in H. rewrite <- Ht in H. congruence.
      * apply (IH p0); [now left | exact H].
    + apply IH. now right.
Qed.

Lemma not_occurs_split (s sep : str) :
  sep <> [] -> ~ occurs sep s -> split s sep = [s].
Proof.
  intros Hsep. induction s as [|r IH|c r Hc IH] using (scan_ind Hsep).
  - reflexivity.
  - intros H. destruct H. apply occurs_head.
  - intros H. destruct (split_miss _ _ _ Hc) as (p0 & ps & E & ->).
    rewrite IH in E by (intros H'; apply H; now apply occurs_cons).
    now injection E as <- <-.
Qed.

Lemma occurs_split_length (s sep : str) :
  sep <> [] -> occurs sep s -> 2 <= List.length (split s sep).
Proof.
  intros Hsep Hocc.
  pose proof (join_split s Hsep) as Hj.
  pose proof (@split_piece_free s sep Hsep) as Hfree.
  destruct (split s sep) as [|p [|q ps]]; cbn [List.length]; try lia.
  - cbn in Hj. subst s. now apply occurs_nil in Hocc.
  - cbn in Hj. subst p. destruct (Hfree s); [now left | exact Hocc].
Qed.

(** *** Counting occurrences *)

Lemma count_skip (l x r : str) :
  (forall i, i < List.length x -> startswith (skipn i (x ++ r)) l = false) ->
  count_occurrences (x ++ r) l = count_occurrences r l.
Proof.
  induction x as [|a x IH]; intros H; [reflexivity|].
  pose proof (H 0 ltac:(simpl; lia)) as H0. cbn [skipn app] in H0.
  cbn [app count_occurrences]. rewrite H0. cbn [Nat.add].
  apply IH. intros i Hi. apply (H (S i)). simpl; lia.
Qed.

Lemma occurs_at_shift (l x r : str) (i : nat) :
  occurs_at r l i -> occurs_at (x ++ r) l (List.length x + i).
Proof.
  intros [Hi H]. split.
  - rewrite length_app. lia.
  - rewrite skipn_app, skipn_all2 by lia.
    replace (List.length x + i - List.length x) with i by lia.
    exact H.
Qed.

Lemma non_overlapping_app (l x r : str) :
  non_overlapping (x ++ r) l -> non_overlapping r l.
Proof.
  intros H i j Hi Hj Hij.
  pose proof (H _ _ (occurs_at_shift x Hi) (occurs_at_shift x Hj)). lia.
Qed.

(** When its occurrences do not overlap, the scan meets every one of
    them. *)
Lemma split_length_count (t l : str) :
  l <> [] -> non_overlapping t l ->
  List.length (split t l) = S (count_occurrences t l).
Proof.
  intros Hl. induction t as [|r IH|c r Hc IH] using (scan_ind Hl);
    intros Hno.
  - destruct l; [congruence | reflexivity].
  - rewrite split_hit by assumption. cbn [List.length]. f_equal.
    rewrite IH by (apply non_overlapping_app with (x := l); exact Hno).
    destruct l as [|c l']; [congruence|].
    change ((c :: l') ++ r) with (c :: (l' ++ r)).
    cbn [count_occurrences].
    change (c :: l' ++ r) with ((c :: l') ++ r).
    rewrite startswith_app. cbn [Nat.add]. f_equal.
    symmetry. apply count_skip. intros i Hi.
    destruct (startswith (skipn i (l' ++ r)) (c :: l')) eqn:E;
      [|reflexivity].
    assert (H0 : occurs_at ((c :: l') ++ r) (c :: l') 0).
    { split; [lia | apply startswith_app]. }
    assert (H1 : occurs_at ((c :: l') ++ r) (c :: l') (S i)).
    { split; [|exact E]. cbn [app List.length]. rewrite length_app. lia. }
    pose proof (Hno _ _ H0 H1). cbn [List.length] in *. lia.
  - destruct (split_miss _ _ _ Hc) as (p0 & ps & E & ->).
    cbn [count_occurrences]. rewrite Hc. cbn [Nat.add].
    rewrite <- IH; [now rewrite E|].
    apply non_overlapping_app with (x := [c]); exact Hno.
Qed.

End OccurFacts.

(** ** Quoting *)

Module QuoteFacts.
Import PyStr PyStrFacts.

Lemma replace_char (s : str) (c : ascii) (new : str) :
  replace s [c] new
  = flat_map (fun x => if Ascii.eqb c x then new else [x]) s.
Proof.
  unfold replace. induction s as [|x s IH]; [reflexivity|].
  cbn [replace_from flat_map startswith List.length Nat.sub].
  rewrite andb_true_r.
  destruct (Ascii.eqb c x); cbn [app]; now rewrite IH.
Qed.

Lemma quoted_latex_eq (latex : str) :
  quoted_latex latex
  = escape_char asterisk
      (escape_char underscore (replace latex "\\" "\newline")).
Proof.
  unfold quoted_latex.
  change (list_ascii_of_string "_") with [underscore].
  change (list_ascii_of_string "*") with [asterisk].
  now rewrite !replace_char.
Qed.

(** *** Characters following a backslash *)

Lemma escaped_from_spec (special : ascii -> bool) (a : str) :
  forall (prev : bool) (s : str) (c : ascii) (b : str),
    escaped_from prev special s = true ->
    s = a ++ c :: b -> special c = true ->
    (a = [] /\ prev = true) \/ exists a', a = a' ++ [backslash].
Proof.
  induction a as [|y a IH]; intros prev s c b H -> Hc.
  - left. split; [reflexivity|]. simpl in H. rewrite Hc in H.
    now apply andb_true_iff in H.
  - right. cbn [app escaped_from] in H.
    apply andb_true_iff in H as [_ H].
    destruct (IH _ _ _ _ H eq_refl Hc) as [[-> E] | [a' ->]].
    + apply Ascii.eqb_eq in E; subst y. now exists [].
    + now exists (y :: a').
Qed.

Lemma escaped_from_none (prev : bool) (s : str) :
  escaped_from prev (fun _ => false) s = true.
Proof. revert prev; induction s; intros; simpl; auto. Qed.

Lemma escape_char_escaped (c : ascii) (special : ascii -> bool) (s : str) :
  c <> backslash -> special backslash = false ->
  forall prev,
    escaped_from prev special s = true ->
    escaped_from prev (fun x => special x || Ascii.eqb c x)
                 (escape_char c s) = true.
Proof.
  intros Hc Hbs. induction s as [|x t IH]; intros prev H; [reflexivity|].
  cbn [escaped_from] in H. apply andb_true_iff in H as [H1 H2].
  unfold escape_char in *. cbn [flat_map].
  destruct (Ascii.eqb c x) eqn:E.
  - apply Ascii.eqb_eq in E; subst x.
    assert (Ec : Ascii.eqb c backslash = false) by now apply Ascii.eqb_neq.
    rewrite Ec in H2.
    cbn [app escaped_from]. rewrite Hbs, Ec.
    rewrite Ascii.eqb_refl, orb_true_r. cbn [orb andb].
    apply IH. exact H2.
  - cbn [app escaped_from]. rewrite E, orb_false_r, H1. cbn [andb].
    now apply IH.
Qed.

(** *** Pairs of backslashes *)

Lemma bs_next_twice (st : bs_run) :
  bs_next (bs_next st backslash) backslash = B2.
Proof. destruct st; reflexivity. Qed.

Lemma dbl_ok_spec (follow : ascii -> bool) (a : str) :
  forall (st : bs_run) (s b : str),
    dbl_ok st follow s = true ->
    s = a ++ backslash :: backslash :: b ->
    exists x b', b = x :: b' /\ follow x = true.
Proof.
  induction a as [|y a IH]; intros st s b H ->.
  - cbn [app dbl_ok] in H.
    apply andb_true_iff in H as [_ H].
    apply andb_true_iff in H as [_ H].
    rewrite bs_next_twice in H.
    destruct b as [|x b']; [discriminate|].
    cbn [dbl_ok] in H. apply andb_true_iff in H as [H _]. eauto.
  - cbn [app dbl_ok] in H. apply andb_true_iff in H as [_ H]. eauto.
Qed.

Lemma escape_char_dbl (c : ascii) (follow : ascii -> bool) (s : str) :
  c <> backslash -> follow c = false ->
  forall st,
    dbl_ok st follow s = true ->
    dbl_ok st (fun x => follow x || Ascii.eqb c x) (escape_char c s) = true.
Proof.
  intros Hc Hf. induction s as [|x t IH]; intros st H; [exact H|].
  cbn [dbl_ok] in H. apply andb_true_iff in H as [H1 H2].
  assert (Ec : Ascii.eqb c backslash = false) by now apply Ascii.eqb_neq.
  unfold escape_char in *. cbn [flat_map].
  destruct (Ascii.eqb c x) eqn:E.
  - apply Ascii.eqb_eq in E; subst x.
    assert (Hst : st <> B2) by (intros ->; congruence).
    assert (En : bs_next st c = B0) by (unfold bs_next; now rewrite Ec).
    rewrite En in H2.
    cbn [app dbl_ok].
    replace (bs_next (bs_next st backslash) c) with B0
      by (unfold bs_next at 1; now rewrite Ec).
    rewrite Ascii.eqb_refl, orb_true_r.
    rewrite (IH _ H2).
    destruct st; try reflexivity; congruence.
  - cbn [app dbl_ok]. rewrite E, orb_false_r.
    rewrite (IH _ H2), andb_true_r. exact H1.
Qed.

(** After the first replacement no two backslashes are adjacent. *)
Lemma newline_step_dbl (s : str) :
  dbl_ok B0 (fun _ => false) (replace s "\\" "\newline") = true
  /\ (head_is_backslash s = false ->
      dbl_ok B1 (fun _ => false) (replace s "\\" "\newline") = true).
Proof.
  assert (Hsep : list_ascii_of_string "\\" <> []) by discriminate.
  induction s as [|r [IH1 IH2]|c r Hc [IH1 IH2]] using (scan_ind Hsep).
  - split; reflexivity.
  - rewrite replace_hit by assumption. split.
    + cbn. exact IH1.
    + cbn. discriminate.
  - rewrite replace_miss by assumption.
    cbn [dbl_ok head_is_backslash andb].
    unfold bs_next.
    destruct (Ascii.eqb c backslash) eqn:E.
    + split; [|discriminate].
      apply IH2. destruct r as [|x r]; [reflexivity|].
      cbn [head_is_backslash].
      destruct (Ascii.eqb x backslash) eqn:E'; [|reflexivity].
      apply Ascii.eqb_eq in E, E'; subst. discriminate.
    + split; intros; exact IH1.
Qed.

End QuoteFacts.

(** ** The matcher *)

Module ReFacts.
Import Re.

Lemma extends_refl (st : mstate) : extends st st.
Proof. exists []. split; [reflexivity | simpl; lia]. Qed.

Lemma extends_trans (a b c : mstate) :
  extends a b -> extends b c -> extends a c.
Proof.
  intros (w1 & R1 & P1) (w2 & R2 & P2). exists (w1 ++ w2). split.
  - now rewrite R1, R2, app_assoc.
  - rewrite length_app. lia.
Qed.

Lemma lazy_loop_inv (cs : cset) (k : cont) (g : option (nat * nat)) (s : str) :
  forall p res,
    lazy_loop cs k p g s = Some res ->
    exists w s', s = w ++ s'
                 /\ Forall (fun x => cset_mem cs x = true) w
                 /\ k (MState (p + List.length w) s' g) = Some res.
Proof.
  induction s as [|x s IH]; intros p res H; cbn [lazy_loop] in H.
  - destruct (k (MState p [] g)) eqn:E; [|discriminate].
    exists [], []. cbn. rewrite Nat.add_0_r. now rewrite E.
  - destruct (k (MState p (x :: s) g)) eqn:E.
    + exists [], (x :: s). cbn. rewrite Nat.add_0_r. now rewrite E.
    + destruct (cset_mem cs x) eqn:Ex; [|discriminate].
      destruct (IH _ _ H) as (w & s' & -> & Hw & Hk).
      exists (x :: w), s'. cbn [app List.length]. repeat split.
      * now constructor.
      * now rewrite Nat.add_succ_r.
Qed.

Lemma lazy_loop_complete (cs : cset) (k : cont) (g : option (nat * nat))
      (w s' : str) :
  Forall (fun x => cset_mem cs x = true) w ->
  forall p,
    k (MState (p + List.length w) s' g) <> None ->
    lazy_loop cs k p g (w ++ s') <> None.
Proof.
  induction 1 as [|x w Hx Hw IH]; intros p Hk.
  - cbn [app List.length] in *. rewrite Nat.add_0_r in Hk.
    destruct s'; cbn [lazy_loop];
      destruct (k _); congruence.
  - cbn [app lazy_loop].
    destruct (k (MState p (x :: w ++ s') g)); [discriminate|].
    rewrite Hx. apply IH. cbn [List.length] in Hk.
    now rewrite Nat.add_succ_r in Hk.
Qed.

(** A successful run hands some later state to its continuation. *)
Lemma run_inv (r : regex) :
  forall st k res,
    run r st k = Some res ->
    exists st', k st' = Some res /\ extends st st'.
Proof.
  induction r as [|cs|a IHa b IHb|a IHa b IHb|cs|a IHa];
    intros st k res H; cbn [run] in H.
  - destruct (Nat.eqb (pos st) 0); [|discriminate].
    exists st. split; [exact H | apply extends_refl].
  - destruct (rest st) as [|x s'] eqn:E; [discriminate|].
    destruct (cset_mem cs x); [|discriminate].
    eexists. split; [exact H|].
    exists [x]. cbn. rewrite E. split; [reflexivity | lia].
  - destruct (IHa _ _ _ H) as (st1 & H1 & E1).
    destruct (IHb _ _ _ H1) as (st2 & H2 & E2).
    exists st2. split; [exact H2 | eapply extends_trans; eauto].
  - destruct (run a st k) eqn:E.
    + injection H as ->. eauto.
    + eauto.
  - destruct (lazy_loop_inv _ _ _ _ _ H) as (w & s' & Hs & _ & Hk).
    eexists. split; [exact Hk|].
    exists w. cbn. split; [exact Hs | reflexivity].
  - destruct (IHa _ _ _ H) as (st1 & H1 & E1).
    eexists. split; [exact H1|].
    destruct E1 as (w & R & P). now exists w.
Qed.

Lemma match_at_extends (r : regex) (p : nat) (s : str) (res : mstate) :
  match_at r p s = Some res ->
  exists w, s = w ++ rest res /\ pos res = p + List.length w.
Proof.
  intros H. destruct (run_inv _ _ _ H) as (st' & [= ->] & w & R & P).
  now exists w.
Qed.

Lemma search_inv (r : regex) (s : str) :
  forall p b res,
    search r p s = Some (b, res) ->
    exists x s', s = x ++ s' /\ b = p + List.length x
                 /\ match_at r b s' = Some res.
Proof.
  induction s as [|c s IH]; intros p b res H; cbn [search] in H.
  - destruct (match_at r p []) eqn:E; [|discriminate].
    injection H as <- <-. exists [], []. cbn. now rewrite Nat.add_0_r.
  - destruct (match_at r p (c :: s)) eqn:E.
    + injection H as <- <-. exists [], (c :: s). cbn.
      now rewrite Nat.add_0_r.
    + destruct (IH _ _ _ H) as (x & s' & -> & -> & Hm).
      exists (c :: x), s'. cbn [app List.length]. repeat split.
      * lia.
      * replace (p + S (List.length x)) with (S p + List.length x) by lia.
        exact Hm.
Qed.

(** The text left after a match found by [search]. *)
Lemma search_rest (r : regex) (s : str) (p b : nat) (res : mstate) :
  search r p s = Some (b, res) ->
  List.length (rest res) + (pos res - b) <= List.length s.
Proof.
  intros H. destruct (search_inv _ _ _ H) as (x & s' & -> & -> & Hm).
  destruct (match_at_extends _ _ _ Hm) as (w & -> & ->).
  rewrite !length_app. lia.
Qed.

(** [finditer] never runs out of fuel when started with more fuel than
    characters. *)
Lemma finditer_fuel (r : regex) (fuel1 : nat) :
  forall fuel2 p s,
    List.length s < fuel1 -> List.length s < fuel2 ->
    finditer fuel1 r p s = finditer fuel2 r p s.
Proof.
  induction fuel1 as [|f1 IH]; intros fuel2 p s H1 H2; [lia|].
  destruct fuel2 as [|f2]; [lia|]. cbn [finditer].
  destruct (search r p s) as [[b res]|] eqn:E; [|reflexivity].
  pose proof (search_rest _ _ _ E) as Hr. f_equal.
  destruct (Nat.ltb b (pos res)) eqn:Eb.
  - apply Nat.ltb_lt in Eb. apply IH; lia.
  - destruct (rest res) as [|y s'] eqn:Er; [reflexivity|].
    cbn [List.length] in Hr. apply IH; lia.
Qed.

Lemma finditer_forall (r : regex) (P : nat * mstate -> Prop) :
  (forall p s b res, search r p s = Some (b, res) -> P (b, res)) ->
  forall fuel p s, Forall P (finditer fuel r p s).
Proof.
  intros HP. induction fuel as [|f IH]; intros p s; cbn [finditer].
  - constructor.
  - destruct (search r p s) as [[b res]|] eqn:E; [|constructor].
    constructor; [eapply HP; eauto|].
    destruct (Nat.ltb b (pos res)); [apply IH|].
    destruct (rest res); [constructor | apply IH].
Qed.

Lemma slice_occurs (s : str) (a b : nat) : occurs (PyStr.slice s a b) s.
Proof.
  unfold PyStr.slice. exists (firstn a s), (skipn (b - a) (skipn a s)).
  now rewrite firstn_skipn, firstn_skipn.
Qed.

Lemma occurs_trans (a b c : str) : occurs a b -> occurs b c -> occurs a c.
Proof.
  intros (x & y & ->) (u & v & ->). exists (u ++ x), (y ++ v).
  now rewrite <- !app_assoc.
Qed.

(** Every string returned by [findall] is a piece of the text, or
    empty. *)
Lemma findall_occurs (r : regex) (s seg : str) :
  In seg (findall r s) -> occurs seg s.
Proof.
  unfold findall. intros H. apply in_map_iff in H as (g & <- & _).
  destruct g as [[a b]|]; cbn [group_text].
  - apply slice_occurs.
  - now exists [], s.
Qed.

End ReFacts.

(** ** Extraction *)

Module ExtractFacts.
Import Re ReFacts PyStr PyStrFacts OccurFacts.

Lemma fold_left_app_flat_map (A B : Type) (f : A -> list B) (l : list A) :
  forall acc,
    fold_left (fun out a => out ++ f a) l acc = acc ++ flat_map f l.
Proof.
  induction l as [|a l IH]; intros acc; cbn [fold_left flat_map].
  - now rewrite app_nil_r.
  - now rewrite IH, app_assoc.
Qed.

Lemma extract_latex_eq (markdown : str) :
  _extract_latex markdown
  = findall display_math markdown
    ++ flat_map (findall inline_math) (split markdown paragraph_break).
Proof. unfold _extract_latex. apply fold_left_app_flat_map. Qed.

(** The group of [x(r)] opens one character after the match starts. *)
Lemma run_chr_group (cs : cset) (a : regex) (p : nat) (s : str) (res : mstate) :
  match_at (Cat (Chr cs) (Group a)) p s = Some res ->
  exists e, grp res = Some (S p, e) /\ S p <= e.
Proof.
  unfold match_at. cbn [run rest pos grp]. intros H.
  destruct s as [|x s]; [discriminate|].
  destruct (cset_mem cs x); [|discriminate].
  apply run_inv in H as (st' & [= <-] & w & _ & Hp).
  cbn [grp pos] in *. exists (pos st'). split; [reflexivity | lia].
Qed.

(** Under [(?:^|x)(r)], a group that matches at the start of the text is
    the match found there. *)
Lemma run_bol_group (x a : regex) (s : str) (res : mstate) :
  run (Group a) (MState 0 s None) Some = Some res ->
  match_at (Cat (Alt Bol x) (Group a)) 0 s = Some res
  /\ exists e, grp res = Some (0, e).
Proof.
  intros H. split.
  - unfold match_at. cbn [run pos Nat.eqb] in *. now rewrite H.
  - cbn [run] in H. apply run_inv in H as (st' & [= <-] & _).
    cbn [grp pos]. eauto.
Qed.

Lemma display_group_at_start (body : str) (c : ascii) (tail : str) :
  c <> backslash ->
  run (Group
         (Cat (Chr (Lit dollar))
         (Cat (Chr (Lit dollar))
         (Cat (LazyStar AnyChar)
         (Cat (Chr (NoneOf [backslash]))
         (Cat (Chr (Lit dollar)) (Chr (Lit dollar))))))))
      (MState 0 (dollar :: dollar :: body ++ c :: dollar :: dollar :: tail)
              None) Some
  <> None.
Proof.
  intros Hc. cbn [run rest pos grp cset_mem].
  rewrite Ascii.eqb_refl.
  apply lazy_loop_complete.
  - apply Forall_forall. reflexivity.
  - apply Ascii.eqb_neq in Hc.
    cbn [rest pos grp existsb]. rewrite Hc.
    cbn [negb orb]. rewrite Ascii.eqb_refl. discriminate.
Qed.

End ExtractFacts.

(** ** [_clean_latex] *)

Module CleanFacts.
Import PyStr PyStrFacts OccurFacts QuoteFacts.

Lemma clean_latex_join_split (text latex : str) :
  latex <> [] ->
  text = join latex (split text latex)
  /\ _clean_latex text latex = join (quoted_latex latex) (split text latex).
Proof.
  intros H. split.
  - symmetry. now apply join_split.
  - unfold _clean_latex. now apply replace_join_split.
Qed.

Lemma flat_map_singleton (s : str) : flat_map (fun c => [c]) s = s.
Proof. induction s as [|c s IH]; cbn; congruence. Qed.

Lemma clean_latex_empty (text : str) : _clean_latex text [] = text.
Proof.
  unfold _clean_latex. change (quoted_latex []) with (@nil ascii).
  cbn [replace app]. apply flat_map_singleton.
Qed.

Lemma clean_latex_absent (text latex : str) :
  ~ occurs latex text -> _clean_latex text latex = text.
Proof.
  intros H. destruct latex as [|c l]; [apply clean_latex_empty|].
  destruct (@clean_latex_join_split text (c :: l)) as [_ ->];
    [discriminate|].
  now rewrite not_occurs_split by (discriminate || assumption).
Qed.


Lemma quoted_latex_escaped (latex : str) : all_escaped (quoted_latex latex).
Proof.
  intros a c b E Hc. rewrite quoted_latex_eq in E.
  pose proof (escaped_from_none false (replace latex "\\" "\newline")) as H.
  apply (@escape_char_escaped underscore) in H;
    [|discriminate|reflexivity].
  apply (@escape_char_escaped asterisk) in H;
    [|discriminate|reflexivity].
  eapply escaped_from_spec in H; [|exact E|].
  - destruct H as [[_ F]|H]; [discriminate | exact H].
  - destruct Hc as [-> | ->]; reflexivity.
Qed.

Lemma newline_step_clean (latex : str) :
  no_double_backslash (replace latex "\\" "\newline").
Proof.
  intros (a & b & E).
  destruct (newline_step_dbl latex) as [H _].
  eapply dbl_ok_spec in H; [|exact E].
  destruct H as (x & b' & _ & F). discriminate.
Qed.

Lemma quoted_latex_double_backslash (latex : str) :
  double_backslash_before_special (quoted_latex latex).
Proof.
  intros a b E. rewrite quoted_latex_eq in E.
  destruct (newline_step_dbl latex) as [H _].
  apply (@escape_char_dbl underscore) in H; [|discriminate|reflexivity].
  apply (@escape_char_dbl asterisk) in H; [|discriminate|reflexivity].
  eapply dbl_ok_spec in H; [|exact E].
  destruct H as (x & b' & -> & F).
  exists x, b'. split; [reflexivity|].
  cbn [orb] in F. apply orb_true_iff in F as [F | F];
    apply Ascii.eqb_eq in F; subst x; [left | right]; reflexivity.
Qed.

End CleanFacts.

(** ** Mappings *)

Module DictFacts.

Lemma str_eqb_eq (a b : str) : str_eqb a b = true <-> a = b.
Proof.
  revert b; induction a as [|x a IH]; intros [|y b]; cbn [str_eqb];
    try (split; [discriminate | congruence]); [tauto|].
  rewrite andb_true_iff, Ascii.eqb_eq, IH. split.
  - now intros [-> ->].
  - intros [= -> ->]. tauto.
Qed.

Lemma str_eqb_refl (k : str) : str_eqb k k = true.
Proof. now apply str_eqb_eq. Qed.

Lemma str_eqb_neq (a b : str) : str_eqb a b = false <-> a <> b.
Proof.
  rewrite <- str_eqb_eq. destruct (str_eqb a b); split; congruence.
Qed.

Lemma dict_get_set_same (d : dict) (k : str) (v : pyval) :
  dict_get (dict_set d k v) k = Some v.
Proof.
  induction d as [|[k' v'] d IH]; cbn [dict_set dict_get].
  - now rewrite str_eqb_refl.
  - destruct (str_eqb k' k) eqn:E; cbn [dict_get]; now rewrite E.
Qed.

Lemma dict_get_set_other (d : dict) (k k' : str) (v : pyval) :
  k <> k' -> dict_get (dict_set d k v) k' = dict_get d k'.
Proof.
  intros Hk. induction d as [|[k0 v0] d IH]; cbn [dict_set dict_get].
  - now apply str_eqb_neq in Hk as ->.
  - destruct (str_eqb k0 k) eqn:E; cbn [dict_get].
    + apply str_eqb_eq in E; subst k0.
      now apply str_eqb_neq in Hk as ->.
    + now rewrite IH.
Qed.

End DictFacts.

(** ** Cells *)

Module CellFacts.
Import DictFacts CleanFacts.

Lemma mapM_total (A B : Type) (f : A -> result B) (l : list A) :
  (forall a, In a l -> exists b, f a = Ok b) ->
  exists l', mapM f l = Ok l'.
Proof.
  induction l as [|a l IH]; intros H; cbn [mapM]; [eauto|].
  destruct (H a (or_introl eq_refl)) as [b ->].
  destruct IH as [l' ->]; [intros; apply H; now right|].
  cbn [bind]. eauto.
Qed.

Lemma mapM_nth (A B : Type) (f : A -> result B) (l : list A) :
  forall l' i a,
    mapM f l = Ok l' -> nth_error l i = Some a ->
    exists b, f a = Ok b /\ nth_error l' i = Some b.
Proof.
  induction l as [|x l IH]; intros l' i a H Hi.
  - destruct i; discriminate.
  - cbn [mapM] in H. destruct (f x) as [b|] eqn:Ex; [|discriminate].
    cbn [bind] in H. destruct (mapM f l) as [bs|] eqn:El; [|discriminate].
    cbn [bind] in H. injection H as <-.
    destruct i as [|i]; cbn [nth_error] in *.
    + injection Hi as <-. eauto.
    + eapply IH; eauto.
Qed.

Lemma clean_output_total (o : dict) :
  output_wf o = true -> exists o', clean_output o = Ok o'.
Proof.
  unfold output_wf, clean_output. intros H.
  destruct (dict_get o "data") as [v|]; cbn [bind dict_get]; [|eauto].
  destruct v; try discriminate. cbn [bind].
  destruct (dict_get d "text/latex") as [v|]; [|eauto].
  destruct (truthy v); [|eauto].
  destruct v; try discriminate. eauto.
Qed.


Lemma preprocess_cell_total (c : cell) (res : resources) (i : nat) :
  cell_wf c = true -> exists c', preprocess_cell c res i = Ok (c', res).
Proof.
  unfold cell_wf, preprocess_cell. intros H.
  destruct (str_eqb (cell_type c) "markdown"); [eauto|].
  destruct (str_eqb (cell_type c) "code"); [|eauto].
  destruct (@mapM_total _ _ clean_output (outputs c)) as [outs ->].
  - intros o Ho. apply clean_output_total.
    now apply (proj1 (forallb_forall _ _) H).
  - cbn [bind]. eauto.
Qed.

Lemma preprocess_cells_total (cs : list cell) (res : resources) :
  forall i,
    forallb cell_wf cs = true ->
    exists cs', preprocess_cells cs res i = Ok (cs', res).
Proof.
  induction cs as [|c cs IH]; intros i H; cbn [preprocess_cells]; [eauto|].
  cbn [forallb] in H. apply andb_true_iff in H as [Hc Hcs].
  destruct (preprocess_cell_total c res i Hc) as [c' ->]. cbn [bind snd].
  destruct (IH (S i) Hcs) as [cs' ->]. cbn [bind fst snd]. eauto.
Qed.

End CellFacts.

(** ** [preprocess] *)

Section PreprocessFacts.
Import DictFacts CellFacts.

Variable datetime : Type.
Variable getmtime : str -> option datetime.
Variable strftime_local : datetime -> str.

(** [preprocess] raises nothing once the hugo entry is a mapping (or
    missing), the notebook file is there and the cells are well formed. *)
Lemma preprocess_ok (nb : notebook) (res : resources) (h : dict)
      (ts : datetime) :
  hugo_before nb = Some h ->
  getmtime (os_path_join (path res) (name res ++ ".ipynb")) = Some ts ->
  forallb cell_wf (cells nb) = true ->
  exists md cs,
    preprocess getmtime strftime_local nb res = Ok (Notebook md cs, res)
    /\ dict_get md "hugo" = Some (VDict (hugo_defaults strftime_local h ts (name res)))
    /\ preprocess_cells (cells nb) res 0 = Ok (cs, res).
Proof.
  intros Hh Hts Hwf. unfold preprocess, hugo_before in *.
  destruct (preprocess_cells_total (cells nb) res 0 Hwf) as [cs Hcs].
  assert (Hset : forall md : dict,
             dict_get (dict_set md "hugo" (VDict [])) "hugo" = Some (VDict []))
    by (intros; apply dict_get_set_same).
  destruct (dict_get (metadata nb) "hugo") as [v|] eqn:E;
    [destruct v; try discriminate|]; injection Hh as <-;
    rewrite ?Hset, ?E; cbn [bind]; rewrite Hts; cbn [bind];
    rewrite Hcs; cbn [bind fst snd];
    eexists; eexists; (split; [reflexivity|]);
    (split; [apply dict_get_set_same | reflexivity]).
Qed.

Lemma hugo_defaults_date (h : dict) (ts : datetime) (nm : str) :
  dict_get (hugo_defaults strftime_local h ts nm) "date"
  = Some (get_or h "date" (VStr (_time_format_hugo strftime_local ts))).
Proof.
  unfold hugo_defaults.
  rewrite !dict_get_set_other by discriminate.
  apply dict_get_set_same.
Qed.

Lemma hugo_defaults_title (h : dict) (ts : datetime) (nm : str) :
  dict_get (hugo_defaults strftime_local h ts nm) "title"
  = Some (get_or h "title" (VStr (default_title nm))).
Proof.
  unfold hugo_defaults.
  rewrite dict_get_set_other by discriminate.
  rewrite dict_get_set_same. f_equal. unfold get_or.
  now rewrite dict_get_set_other by discriminate.
Qed.

Lemma hugo_defaults_draft (h : dict) (ts : datetime) (nm : str) :
  dict_get (hugo_defaults strftime_local h ts nm) "draft"
  = Some (dict_get_default h "draft" (VBool true)).
Proof.
  unfold hugo_defaults. rewrite dict_get_set_same. f_equal.
  unfold dict_get_default.
  now rewrite !dict_get_set_other by discriminate.
Qed.

End PreprocessFacts.

(** * The claims *)

Import PyStr Re.
Import PyStrFacts OccurFacts QuoteFacts ReFacts DictFacts ExtractFacts CleanFacts CellFacts.

(** C1. On the text "Display:\n$$x_1 + x_2$$\nmore", [_extract_latex] returns
    two segments: the display block "$$x_1 + x_2$$" and, from the inline
    pass, "$$x_1 + x_2$", which opens on the first "$" of the block's
    delimiter and closes on the first "$" of its closing one. *)
Theorem extract_latex_display_example :
  _extract_latex display_example
  = ["$$x_1 + x_2$$" : str; "$$x_1 + x_2$" : str].
Proof. vm_compute. reflexivity. Qed.

(** C2, as amended. When [latex] occurs in [text], [_clean_latex] rewrites
    the occurrences met by a left-to-right scan into [quoted_latex latex];
    in such a span every "_" and "*" directly follows a backslash, two
    adjacent backslashes only stand directly before a "_" or "*", and the
    string left by the first replacement has no two adjacent backslashes. *)
Theorem clean_latex_quotes_spans (text latex : str)
        (Hocc : occurs latex text) :
  (latex <> [] ->
   text = join latex (split text latex)
   /\ _clean_latex text latex = join (quoted_latex latex) (split text latex)
   /\ 2 <= List.length (split text latex))
  /\ (latex = [] -> _clean_latex text latex = text)
  /\ all_escaped (quoted_latex latex)
  /\ double_backslash_before_special (quoted_latex latex)
  /\ no_double_backslash (replace latex "\\" "\newline").
Proof.
  repeat split.
  - now apply clean_latex_join_split.
  - now apply clean_latex_join_split.
  - now apply occurs_split_length.
  - intros ->. apply clean_latex_empty.
  - apply quoted_latex_escaped.
  - apply quoted_latex_double_backslash.
  - apply newline_step_clean.
Qed.

Lemma clean_latex_quotes_spans_witness :
  all_escaped (quoted_latex "$a_b$")
  /\ _clean_latex "text $a_b$ end" "$a_b$" = "text $a\_b$ end".
Proof.
  assert (H : occurs "$a_b$" "text $a_b$ end") by now exists "text ", " end".
  destruct (clean_latex_quotes_spans H) as (_ & _ & He & _).
  split; [exact He | reflexivity].
Defined.

(** C2, counterexample. For the LaTeX "\_", which is the whole text, the
    result "\\_" has two adjacent backslashes. *)
Lemma clean_latex_double_backslash :
  occurs "\_" "\_"
  /\ _clean_latex "\_" "\_" = quoted_latex "\_"
  /\ _clean_latex "\_" "\_" = "\\_"
  /\ ~ no_double_backslash (_clean_latex "\_" "\_").
Proof.
  repeat split.
  - now exists [], [].
  - intros H. apply H. now exists [], "_".
Qed.

(** C3, as amended. [_clean_latex] replaces, by the same [quoted_latex],
    the occurrences of a non-empty [latex] met by a left-to-right scan that
    resumes after each occurrence: no text between or around them contains
    [latex], and when the occurrences of [latex] in [text] do not overlap
    all of them are replaced. *)
Theorem clean_latex_replaces_scanned (text latex : str)
        (Hne : latex <> []) :
  text = join latex (split text latex)
  /\ _clean_latex text latex = join (quoted_latex latex) (split text latex)
  /\ (forall p, In p (split text latex) -> ~ occurs latex p)
  /\ (non_overlapping text latex ->
      List.length (split text latex) = S (count_occurrences text latex)).
Proof.
  repeat split.
  - now apply clean_latex_join_split.
  - now apply clean_latex_join_split.
  - now apply split_piece_free.
  - now apply split_length_count.
Qed.

Lemma clean_latex_replaces_scanned_witness :
  _clean_latex "$a_b$ and $a_b$" "$a_b$"
  = join (quoted_latex "$a_b$") (split "$a_b$ and $a_b$" "$a_b$").
Proof.
  apply (@clean_latex_replaces_scanned "$a_b$ and $a_b$" "$a_b$").
  discriminate.
Defined.

(** C3, counterexample. In " $a_b$a_b$" the LaTeX "$a_b$" occurs twice, the
    occurrences sharing a "$"; only the first is replaced. *)
Lemma clean_latex_overlapping_occurrences :
  count_occurrences " $a_b$a_b$" "$a_b$" = 2
  /\ _clean_latex " $a_b$a_b$" "$a_b$" = " $a\_b$a_b$"
  /\ ~ all_occurrences_replaced " $a_b$a_b$" "$a_b$".
Proof.
  repeat split.
  intros (ps & Hlen & HT & _).
  change (count_occurrences " $a_b$a_b$" "$a_b$") with 2 in Hlen.
  destruct ps as [|a [|b [|c [|d ps]]]]; try discriminate.
  cbn [join] in HT.
  pose proof (f_equal (@List.length ascii) HT) as HL.
  rewrite !length_app in HL. cbn in HL.
  destruct a; [|cbn in HL; lia]. discriminate.
Qed.

(** Runs [preprocess] with [preprocess_ok] and exposes the hugo mapping of
    the notebook it returns. *)
Ltac run_preprocess strftime Hh Hts Hcells :=
  let md := fresh "md" in
  let cs := fresh "cs" in
  let Hp := fresh "Hp" in
  let Hmd := fresh "Hmd" in
  destruct (preprocess_ok _ strftime _ _ Hh Hts Hcells)
    as (md & cs & Hp & Hmd & _);
  eexists; eexists; split; [exact Hp|];
  unfold hugo_of; cbn [metadata]; rewrite Hmd;
  split; [reflexivity|].

Section Metadata.

Variable datetime : Type.
Variable getmtime : str -> option datetime.
Variable strftime_local : datetime -> str.

(** C4, as amended. When [preprocess] starts from a hugo mapping [h], the
    notebook file is there and the cells are well formed, it returns a
    notebook whose hugo mapping keeps every truthy value [h] had for "date"
    and for "title", and every value, truthy or not, [h] had for "draft";
    a falsy "date" or "title" gives way to the default. *)
Theorem preprocess_keeps_set_values (nb : notebook) (res : resources)
        (h : dict) (ts : datetime)
        (Hh : hugo_before nb = Some h)
        (Hts : getmtime (os_path_join (path res) (name res ++ ".ipynb"))
               = Some ts)
        (Hcells : forallb cell_wf (cells nb) = true) :
  exists nb' h',
    preprocess getmtime strftime_local nb res = Ok (nb', res)
    /\ hugo_of nb' = Some h'
    /\ (forall v, dict_get h "date" = Some v -> truthy v = true ->
                  dict_get h' "date" = Some v)
    /\ (forall v, dict_get h "title" = Some v -> truthy v = true ->
                  dict_get h' "title" = Some v)
    /\ (forall v, dict_get h "draft" = Some v ->
                  dict_get h' "draft" = Some v)
    /\ (forall v, dict_get h "date" = Some v -> truthy v = false ->
                  dict_get h' "date"
                  = Some (VStr (_time_format_hugo strftime_local ts)))
    /\ (forall v, dict_get h "title" = Some v -> truthy v = false ->
                  dict_get h' "title" = Some (VStr (default_title (name res)))).
Proof.
  run_preprocess strftime_local Hh Hts Hcells.
  repeat split; intros v Hv; try intros Ht;
    rewrite ?hugo_defaults_date, ?hugo_defaults_title, ?hugo_defaults_draft;
    unfold get_or, dict_get_default; now rewrite Hv, ?Ht.
Qed.

(** C7, as amended. When the hugo mapping has no "title", or a falsy one,
    and the file name is made of ASCII characters, [preprocess] sets the
    title to the file name split on "_", each segment passed through
    [str.capitalize] (first character upper-cased, the others lower-cased),
    the segments joined by single spaces; for "my_first_post" this is
    "My First Post". *)
Theorem preprocess_default_title (nb : notebook) (res : resources)
        (h : dict) (ts : datetime)
        (Hh : hugo_before nb = Some h)
        (Hts : getmtime (os_path_join (path res) (name res ++ ".ipynb"))
               = Some ts)
        (Hcells : forallb cell_wf (cells nb) = true)
        (Htitle : dict_get h "title" = None
                  \/ exists v, dict_get h "title" = Some v
                               /\ truthy v = false)
        (Hascii : is_ascii (name res) = true) :
  exists nb' h',
    preprocess getmtime strftime_local nb res = Ok (nb', res)
    /\ hugo_of nb' = Some h'
    /\ dict_get h' "title"
       = Some (VStr (join " " (map capitalize (split (name res) "_"))))
    /\ default_title "my_first_post" = "My First Post".
Proof.
  run_preprocess strftime_local Hh Hts Hcells. repeat split.
  rewrite hugo_defaults_title. unfold get_or.
  destruct Htitle as [-> | (v & -> & ->)]; reflexivity.
Qed.

(** C8. [preprocess] tests "draft" for presence: when the hugo mapping has
    no "draft" the result has "draft" set to true, and when it has "draft"
    set to false the result still has it set to false. *)
Theorem preprocess_draft_presence (nb : notebook) (res : resources)
        (h : dict) (ts : datetime)
        (Hh : hugo_before nb = Some h)
        (Hts : getmtime (os_path_join (path res) (name res ++ ".ipynb"))
               = Some ts)
        (Hcells : forallb cell_wf (cells nb) = true) :
  exists nb' h',
    preprocess getmtime strftime_local nb res = Ok (nb', res)
    /\ hugo_of nb' = Some h'
    /\ (dict_get h "draft" = None ->
        dict_get h' "draft" = Some (VBool true))
    /\ (dict_get h "draft" = Some (VBool false) ->
        dict_get h' "draft" = Some (VBool false)).
Proof.
  run_preprocess strftime_local Hh Hts Hcells.
  split; intros Hd; rewrite hugo_defaults_draft; unfold dict_get_default;
    now rewrite Hd.
Qed.

End Metadata.

Lemma preprocess_keeps_set_values_witness :
  exists nb' h',
    preprocess example_getmtime example_strftime
               (example_notebook [("date" : str, VStr "2019-05-06T07:08:09+02:00");
                                  ("draft" : str, VBool false)])
               example_resources
    = Ok (nb', example_resources)
    /\ hugo_of nb' = Some h'
    /\ dict_get h' "date" = Some (VStr "2019-05-06T07:08:09+02:00")
    /\ dict_get h' "draft" = Some (VBool false).
Proof.
  destruct (@preprocess_keeps_set_values Z example_getmtime example_strftime
              (example_notebook [("date" : str, VStr "2019-05-06T07:08:09+02:00");
                                 ("draft" : str, VBool false)])
              example_resources
              [("date" : str, VStr "2019-05-06T07:08:09+02:00");
               ("draft" : str, VBool false)]
              1577930645%Z)
    as (nb' & h' & Hp & Hh & Hdate & _ & Hdraft & _).
  - reflexivity.
  - reflexivity.
  - reflexivity.
  - exists nb', h'. repeat split.
    + exact Hp.
    + exact Hh.
    + apply Hdate; reflexivity.
    + apply Hdraft; reflexivity.
Defined.

(** C4, counterexample. A hugo mapping whose "date" is set to the empty
    string comes back with "date" set to the file's modification time. *)
Lemma preprocess_overwrites_falsy_date :
  ~ set_values_kept example_getmtime example_strftime
      (example_notebook [("date" : str, VStr [])]) example_resources.
Proof.
  intros H.
  destruct (H "date" (VStr []) [("date" : str, VStr [])]
              (Notebook
                 [("hugo" : str,
                   VDict [("date" : str, VStr "2020-01-02T03:04:05+01:00");
                          ("title" : str, VStr "My First Post");
                          ("draft" : str, VBool true)])]
                 [Cell "markdown" "Inline $a\_b$ math" [];
                  Cell "code" "display(Math('x_y'))" [latex_output "$x\_y$"]])
              example_resources)
    as (h' & Hh & Hd).
  - now left.
  - reflexivity.
  - reflexivity.
  - vm_compute. reflexivity.
  - vm_compute in Hh. injection Hh as <-. vm_compute in Hd. discriminate.
Qed.

Lemma preprocess_default_title_witness :
  exists nb' h',
    preprocess example_getmtime example_strftime
               (example_notebook [("title" : str, VStr [])]) example_resources
    = Ok (nb', example_resources)
    /\ hugo_of nb' = Some h'
    /\ dict_get h' "title" = Some (VStr "My First Post").
Proof.
  destruct (@preprocess_default_title Z example_getmtime example_strftime
              (example_notebook [("title" : str, VStr [])])
              example_resources
              [("title" : str, VStr [])]
              1577930645%Z)
    as (nb' & h' & Hp & Hh & Ht & _).
  - reflexivity.
  - reflexivity.
  - reflexivity.
  - right. exists (VStr []). split; reflexivity.
  - reflexivity.
  - exists nb', h'. repeat split; assumption.
Defined.

(** C7, counterexample. For the name "my_firstPost" the title set by
    [preprocess] is "My Firstpost", while capitalizing only the first letter
    of each segment gives "My FirstPost". *)
Lemma default_title_lowercases_rest :
  default_title "my_firstPost" = "My Firstpost"
  /\ title_by_spec "my_firstPost" = "My FirstPost"
  /\ default_title "my_firstPost" <> title_by_spec "my_firstPost".
Proof. repeat split. discriminate. Qed.

Lemma preprocess_draft_presence_witness :
  exists nb' h',
    preprocess example_getmtime example_strftime
               (example_notebook [("draft" : str, VBool false)])
               example_resources
    = Ok (nb', example_resources)
    /\ hugo_of nb' = Some h'
    /\ dict_get h' "draft" = Some (VBool false).
Proof.
  destruct (@preprocess_draft_presence Z example_getmtime example_strftime
              (example_notebook [("draft" : str, VBool false)])
              example_resources
              [("draft" : str, VBool false)]
              1577930645%Z)
    as (nb' & h' & Hp & Hh & _ & Hd).
  - reflexivity.
  - reflexivity.
  - reflexivity.
  - exists nb', h'. repeat split; try assumption.
    apply Hd. reflexivity.
Defined.

(** C5. [_extract_latex] returns the display segments of the whole text
    followed by the inline segments of each paragraph, the paragraphs being
    the pieces of the text between blank lines, in their order; an inline
    segment lies inside one paragraph and holds no blank line.  On
    "para one $a$\n\npara two $b$" the result is ["$a$", "$b$"]. *)
Theorem extract_latex_by_paragraph (markdown : str) :
  _extract_latex markdown
  = findall display_math markdown
    ++ flat_map (findall inline_math) (split markdown paragraph_break)
  /\ join paragraph_break (split markdown paragraph_break) = markdown
  /\ (forall seg,
         In seg (flat_map (findall inline_math)
                          (split markdown paragraph_break)) ->
         (exists block, In block (split markdown paragraph_break)
                        /\ occurs seg block)
         /\ ~ occurs paragraph_break seg)
  /\ _extract_latex paragraphs_example = ["$a$" : str; "$b$" : str].
Proof.
  assert (Hsep : paragraph_break <> []) by discriminate.
  split; [apply extract_latex_eq|].
  split; [now apply join_split|].
  split; [|vm_compute; reflexivity].
  intros seg H. apply in_flat_map in H as (block & Hb & Hseg).
  apply findall_occurs in Hseg. split; [eauto|].
  intros Hbreak.
  apply (@split_piece_free markdown paragraph_break Hsep block Hb).
  eapply occurs_trans; eauto.
Qed.

Lemma extract_latex_by_paragraph_witness :
  ~ occurs paragraph_break "$b$".
Proof.
  apply (extract_latex_by_paragraph paragraphs_example).
  vm_compute. right. left. reflexivity.
Defined.



(** C9. [_clean_latex] only rewrites occurrences of [latex]: the pieces of
    [text] between the occurrences met by the scan come back unchanged and in
    order, joined by [quoted_latex latex] instead of [latex]; the text comes
    back as it is when [latex] is empty or does not occur in it. *)
Theorem clean_latex_frame (text latex : str) :
  (latex <> [] ->
   text = join latex (split text latex)
   /\ _clean_latex text latex = join (quoted_latex latex) (split text latex))
  /\ (latex = [] -> _clean_latex text latex = text)
  /\ (~ occurs latex text -> _clean_latex text latex = text).
Proof.
  repeat split.
  - now apply clean_latex_join_split.
  - now apply clean_latex_join_split.
  - intros ->. apply clean_latex_empty.
  - apply clean_latex_absent.
Qed.

Lemma clean_latex_frame_witness :
  _clean_latex "no math here_" "$a_b$" = "no math here_".
Proof.
  apply (clean_latex_frame "no math here_" "$a_b$").
  intros H. apply (@split_piece_free "no math here_" "$a_b$") in H.
  - exact H.
  - discriminate.
  - vm_compute. left. reflexivity.
Defined.

(** C10. The inline pattern needs a character before the opening "$": in
    every paragraph the group of an inline match starts at position 1 or
    later, and the first paragraph starts the text, so no inline segment
    starts at position 0 of the text; "$a_b$ end" yields nothing.  A display
    block "$$...$$" at the start of the text is matched at position 0. *)
Theorem inline_math_needs_preceding_character :
  (forall block g,
      In g (group_spans inline_math block) ->
      exists a b, g = Some (a, b) /\ 1 <= a <= b)
  /\ (forall markdown, exists block blocks tail,
         split markdown paragraph_break = block :: blocks
         /\ markdown = block ++ tail)
  /\ _extract_latex "$a_b$ end" = []
  /\ (forall body c tail,
         c <> backslash ->
         exists e spans,
           group_spans display_math
             (dollar :: dollar :: body ++ c :: dollar :: dollar :: tail)
           = Some (0, e) :: spans)
  /\ _extract_latex "$$a_b$$ end" = ["$$a_b$$" : str].
Proof.
  split; [|split; [|split; [reflexivity|split; [|vm_compute; reflexivity]]]].
  - intros block g H. unfold group_spans in H.
    apply in_map_iff in H as ([b res] & <- & Hin).
    assert (HF : Forall (fun m => exists e, grp (snd m) = Some (S (fst m), e)
                                            /\ S (fst m) <= e)
                        (finditer (S (List.length block)) inline_math 0 block)).
    { apply finditer_forall. intros p s b' res' Hs.
      apply search_inv in Hs as (x & s' & _ & _ & Hm).
      cbn [fst snd]. now apply run_chr_group in Hm. }
    apply (proj1 (Forall_forall _ _) HF) in Hin.
    cbn [fst snd] in *. destruct Hin as (e & -> & He).
    exists (S b), e. split; [reflexivity | lia].
  - intros markdown.
    destruct (split_nonempty markdown paragraph_break) as (p & ps & E).
    destruct (join_head paragraph_break p ps) as [t Ht].
    exists p, ps, t. split; [exact E|].
    rewrite <- Ht, <- E. symmetry. apply join_split. discriminate.
  - intros body c tail Hc.
    pose proof (display_group_at_start body tail Hc) as Hrun.
    destruct (run _ _ _) as [res|] eqn:E in Hrun; [|congruence].
    destruct (@run_bol_group (Chr (NoneOf [backslash])) _ _ _ E)
      as (Hm & e & He).
    unfold group_spans. cbn [finditer search].
    change (match_at display_math 0 ?s) with
      (match_at (Cat (Alt Bol (Chr (NoneOf [backslash])))
                     (Group
                        (Cat (Chr (Lit dollar))
                        (Cat (Chr (Lit dollar))
                        (Cat (LazyStar AnyChar)
                        (Cat (Chr (NoneOf [backslash]))
                        (Cat (Chr (Lit dollar)) (Chr (Lit dollar))))))))) 0 s).
    rewrite Hm. cbn [map snd]. rewrite He. eauto.
Qed.

Lemma inline_math_needs_preceding_character_witness :
  exists a b, Some (1, 4) = Some (a, b) /\ 1 <= a <= b.
Proof.
  apply (proj1 inline_math_needs_preceding_character " $a$ ").
  vm_compute. left. reflexivity.
Defined.

(** * Further properties *)

(** ** Reading a match off the text *)

Module ShapeFacts.

(** The lazy repetition stops at the first place where the rest of the
    pattern matches. *)
Lemma lazy_loop_first (cs : cset) (k : cont) (g : option (nat * nat)) (s : str) :
  forall p res,
    lazy_loop cs k p g s = Some res ->
    exists w s',
      s = w ++ s'
      /\ k (MState (p + List.length w) s' g) = Some res
      /\ forall w1 w2, w = w1 ++ w2 -> w2 <> [] ->
                       k (MState (p + List.length w1) (w2 ++ s') g) = None.
Proof.
  induction s as [|x s IH]; intros p res H; cbn [lazy_loop] in H.
  - destruct (k (MState p [] g)) eqn:E; [|discriminate].
    exists [], []. cbn [app List.length]. rewrite Nat.add_0_r.
    repeat split; [congruence|].
    intros w1 w2 Hw. symmetry in Hw. apply app_eq_nil in Hw as [_ ->].
    congruence.
  - destruct (k (MState p (x :: s) g)) eqn:E.
    + exists [], (x :: s). cbn [app List.length]. rewrite Nat.add_0_r.
      repeat split; [congruence|].
      intros w1 w2 Hw. symmetry in Hw. apply app_eq_nil in Hw as [_ ->].
      congruence.
    + destruct (cset_mem cs x); [|discriminate].
      destruct (IH _ _ H) as (w & s' & -> & Hk & Hmin).
      exists (x :: w), s'. cbn [app List.length]. repeat split.
      * now rewrite Nat.add_succ_r.
      * intros w1 w2 Hw Hne. destruct w1 as [|y w1].
        -- cbn [app] in Hw. subst w2. cbn [List.length app].
           now rewrite Nat.add_0_r.
        -- injection Hw as <- ->. cbn [List.length].
           rewrite Nat.add_succ_r. now apply Hmin.
Qed.

Lemma skipn_add_app (A : Type) (t w r : list A) (p : nat) :
  skipn p t = w ++ r -> skipn (p + List.length w) t = r.
Proof.
  intros H. rewrite Nat.add_comm, <- skipn_skipn, H.
  now rewrite skipn_app, skipn_all, Nat.sub_diag.
Qed.

(** [finditer] keeps the text still to read in step with the position. *)
Lemma finditer_forall_at (r : regex) (text : str) (P : nat * mstate -> Prop) :
  (forall p s b res,
      skipn p text = s -> search r p s = Some (b, res) -> P (b, res)) ->
  forall fuel p s,
    skipn p text = s -> Forall P (finditer fuel r p s).
Proof.
  intros HP. induction fuel as [|f IH]; intros p s Hs; cbn [finditer].
  - constructor.
  - destruct (search r p s) as [[b res]|] eqn:E; [|constructor].
    constructor; [eapply HP; eauto|].
    assert (Hrest : skipn (pos res) text = rest res).
    { destruct (search_inv _ _ _ E) as (x & s' & Hx & -> & Hm).
      destruct (match_at_extends _ _ _ Hm) as (w & Hw & ->).
      rewrite <- Nat.add_assoc, <- length_app.
      apply skipn_add_app. rewrite Hs, Hx, Hw. now rewrite app_assoc. }
    destruct (Nat.ltb b (pos res)); [now apply IH|].
    destruct (rest res) as [|y s'] eqn:Er; [constructor|].
    apply IH. replace (S (pos res)) with (pos res + List.length [y])
      by (simpl; lia).
    apply skipn_add_app. now rewrite Hrest.
Qed.

(** A match of the inline pattern read off the text. *)
Lemma inline_match_shape (p : nat) (s : str) (res : mstate) :
  match_at inline_math p s = Some res ->
  exists x u c,
    s = x :: dollar :: u ++ c :: dollar :: rest res
    /\ x <> dollar /\ x <> backslash /\ c <> backslash
    /\ grp res = Some (S p, S p + List.length (dollar :: u ++ [c; dollar]))
    /\ (forall u1 y d t, u ++ [c] = u1 ++ y :: d :: t ->
                         y = backslash \/ d <> dollar).
Proof.
  unfold match_at, inline_math. cbn [run rest pos grp]. intros H.
  destruct s as [|x s]; [discriminate|].
  destruct (cset_mem (NoneOf [dollar; backslash]) x) eqn:Ex; [|discriminate].
  destruct s as [|d0 s]; [discriminate|].
  destruct (cset_mem (Lit dollar) d0) eqn:Ed; [|discriminate].
  cbn [cset_mem] in Ed. apply Ascii.eqb_eq in Ed. subst d0.
  apply lazy_loop_first in H as (u & s' & -> & Hk & Hmin).
  cbn [rest pos grp] in Hk.
  destruct s' as [|c s']; [discriminate|].
  destruct (cset_mem (NoneOf [backslash]) c) eqn:Ec; [|discriminate].
  destruct s' as [|d1 s']; [discriminate|].
  destruct (cset_mem (Lit dollar) d1) eqn:Ed1; [|discriminate].
  cbn [cset_mem] in Ed1. apply Ascii.eqb_eq in Ed1. subst d1.
  injection Hk as <-. cbn [rest grp pos].
  exists x, u, c.
  cbn [cset_mem existsb] in Ex, Ec.
  rewrite orb_false_r in Ex, Ec.
  apply negb_true_iff in Ex, Ec.
  apply orb_false_iff in Ex as [Ex1 Ex2].
  apply Ascii.eqb_neq in Ex1, Ex2, Ec.
  repeat split; try assumption.
  - f_equal. f_equal. cbn [List.length]. rewrite length_app. cbn. lia.
  - intros u1 y d t Hu.
    assert (Hsplit : exists t', u = u1 ++ y :: t' /\ t' ++ [c] = d :: t).
    { destruct t as [|e t] using rev_ind.
      - exists []. change (u1 ++ [y; d]) with (u1 ++ [y] ++ [d]) in Hu.
        rewrite app_assoc in Hu. apply app_inj_tail in Hu as [-> ->].
        split; reflexivity.
      - clear IHt. exists (d :: t).
        change (u1 ++ y :: d :: t ++ [e]) with (u1 ++ (y :: d :: t) ++ [e]) in Hu.
        rewrite app_assoc in Hu. apply app_inj_tail in Hu as [-> ->].
        split; reflexivity. }
    destruct Hsplit as (t' & -> & Ht').
    specialize (Hmin u1 (y :: t') eq_refl ltac:(discriminate)).
    cbn [rest pos grp app] in Hmin.
    change (t' ++ c :: dollar :: s') with (t' ++ [c] ++ dollar :: s') in Hmin.
    rewrite app_assoc, Ht' in Hmin. cbn [app] in Hmin.
    cbn [cset_mem existsb] in Hmin. rewrite orb_false_r in Hmin.
    destruct (Ascii.eqb y backslash) eqn:Ey.
    + left. now apply Ascii.eqb_eq.
    + right. cbn [negb] in Hmin.
      destruct (Ascii.eqb dollar d) eqn:Edd; [discriminate|].
      apply Ascii.eqb_neq in Edd. congruence.
Qed.


Lemma run_bol_or_chr (cs : cset) (g : regex) (p : nat) (s : str) (res : mstate) :
  match_at (Cat (Alt Bol (Chr cs)) g) p s = Some res ->
  (p = 0 /\ run g (MState 0 s None) Some = Some res)
  \/ (exists x s', s = x :: s' /\ cset_mem cs x = true
                   /\ run g (MState (S p) s' None) Some = Some res).
Proof.
  unfold match_at. cbn [run pos rest grp]. intros H.
  destruct (Nat.eqb p 0) eqn:Ep.
  - apply Nat.eqb_eq in Ep. subst p.
    destruct (run g (MState 0 s None) Some) eqn:E.
    + left. split; [reflexivity | congruence].
    + right. destruct s as [|x s']; [discriminate|].
      destruct (cset_mem cs x) eqn:Ex; [|discriminate]. eauto.
  - right. destruct s as [|x s']; [discriminate|].
    destruct (cset_mem cs x) eqn:Ex; [|discriminate]. eauto.
Qed.

(** The group of the display pattern read off the text. *)
Lemma display_group_shape (p : nat) (s : str) (res : mstate) :
  run (Group
         (Cat (Chr (Lit dollar))
         (Cat (Chr (Lit dollar))
         (Cat (LazyStar AnyChar)
         (Cat (Chr (NoneOf [backslash]))
         (Cat (Chr (Lit dollar)) (Chr (Lit dollar))))))))
      (MState p s None) Some = Some res ->
  exists u c,
    s = dollar :: dollar :: u ++ c :: dollar :: dollar :: rest res
    /\ c <> backslash
    /\ grp res
       = Some (p, p + List.length (dollar :: dollar :: u ++ [c; dollar; dollar]))
    /\ (forall u1 y d e t, u ++ [c; dollar] = u1 ++ y :: d :: e :: t ->
                           y = backslash \/ d <> dollar \/ e <> dollar).
Proof.
  cbn [run rest pos grp]. intros H.
  destruct s as [|d0 s]; [discriminate|].
  destruct (cset_mem (Lit dollar) d0) eqn:Ed0; [|discriminate].
  destruct s as [|d1 s]; [discriminate|].
  destruct (cset_mem (Lit dollar) d1) eqn:Ed1; [|discriminate].
  cbn [cset_mem] in Ed0, Ed1. apply Ascii.eqb_eq in Ed0, Ed1. subst d0 d1.
  apply lazy_loop_first in H as (u & s' & -> & Hk & Hmin).
  cbn [rest pos grp] in Hk.
  destruct s' as [|c s']; [discriminate|].
  destruct (cset_mem (NoneOf [backslash]) c) eqn:Ec; [|discriminate].
  destruct s' as [|d2 s']; [discriminate|].
  destruct (cset_mem (Lit dollar) d2) eqn:Ed2; [|discriminate].
  destruct s' as [|d3 s']; [discriminate|].
  destruct (cset_mem (Lit dollar) d3) eqn:Ed3; [|discriminate].
  cbn [cset_mem] in Ed2, Ed3. apply Ascii.eqb_eq in Ed2, Ed3. subst d2 d3.
  injection Hk as <-. cbn [rest grp pos].
  exists u, c.
  cbn [cset_mem existsb] in Ec. rewrite orb_false_r in Ec.
  apply negb_true_iff in Ec. apply Ascii.eqb_neq in Ec.
  repeat split; try assumption.
  - f_equal. f_equal. cbn [List.length]. rewrite length_app. cbn. lia.
  - intros u1 y d e t Hu.
    assert (Hsplit : exists t', u = u1 ++ y :: t'
                                /\ t' ++ [c; dollar] = d :: e :: t).
    { assert (Hlen : List.length u = List.length u1 + S (List.length t)).
      { apply (f_equal (@List.length ascii)) in Hu.
        rewrite !length_app in Hu. cbn in Hu. lia. }
      exists (firstn (List.length t) (skipn (S (List.length u1)) u)).
      assert (Hu1 : firstn (List.length u1) u = u1).
      { apply (f_equal (firstn (List.length u1))) in Hu.
        rewrite firstn_app, firstn_app in Hu.
        rewrite Nat.sub_diag, firstn_all in Hu. cbn [firstn] in Hu.
        rewrite app_nil_r in Hu.
        replace (List.length u1 - List.length u) with 0 in Hu by lia.
        cbn [firstn] in Hu. now rewrite app_nil_r in Hu. }
      rewrite <- (firstn_skipn (List.length u1) u) in Hu at 1.
      rewrite Hu1, <- app_assoc in Hu. apply app_inv_head in Hu.
      destruct (skipn (List.length u1) u) as [|y' r] eqn:Er.
      { apply (f_equal (@List.length ascii)) in Er.
        rewrite length_skipn in Er. cbn in Er. lia. }
      cbn [app] in Hu. injection Hu as -> Hr.
      assert (Hrl : List.length r = List.length t).
      { apply (f_equal (@List.length ascii)) in Er.
        rewrite length_skipn in Er. cbn in Er. lia. }
      replace (skipn (S (List.length u1)) u) with r.
      2:{ replace (S (List.length u1)) with (List.length u1 + List.length [y])
            by (simpl; lia).
          symmetry. apply skipn_add_app. exact Er. }
      rewrite <- Hrl, firstn_all. split; [|exact Hr].
      rewrite <- (firstn_skipn (List.length u1) u) at 1. now rewrite Hu1, Er. }
    destruct Hsplit as (t' & -> & Ht').
    specialize (Hmin u1 (y :: t') eq_refl ltac:(discriminate)).
    cbn [rest pos grp app] in Hmin.
    change (t' ++ c :: dollar :: dollar :: s')
      with (t' ++ [c; dollar] ++ dollar :: s') in Hmin.
    rewrite app_assoc, Ht' in Hmin. cbn [app] in Hmin.
    cbn [cset_mem existsb] in Hmin. rewrite orb_false_r in Hmin.
    destruct (Ascii.eqb y backslash) eqn:Ey.
    + left. now apply Ascii.eqb_eq.
    + right. cbn [negb] in Hmin.
      destruct (Ascii.eqb dollar d) eqn:Edd.
      * right. destruct (Ascii.eqb dollar e) eqn:Ee.
        -- destruct t; discriminate.
        -- apply Ascii.eqb_neq in Ee. congruence.
      * left. apply Ascii.eqb_neq in Edd. congruence.
Qed.

Lemma slice_app (t w r : str) (a : nat) :
  skipn a t = w ++ r -> slice t a (a + List.length w) = w.
Proof.
  intros H. unfold slice. rewrite H.
  replace (a + List.length w - a) with (List.length w) by lia.
  now rewrite firstn_app, Nat.sub_diag, firstn_all, app_nil_r.
Qed.

Lemma skipn_occurs (t w r : str) (a : nat) :
  skipn a t = w ++ r -> occurs w t.
Proof.
  intros H. exists (firstn a t), r. now rewrite <- H, firstn_skipn.
Qed.

Lemma search_at (r : regex) (text : str) (p : nat) (s : str) (b : nat)
      (res : mstate) :
  skipn p text = s -> search r p s = Some (b, res) ->
  match_at r b (skipn b text) = Some res.
Proof.
  intros Hs H. destruct (search_inv _ _ _ H) as (x & s' & Hx & -> & Hm).
  rewrite (@skipn_add_app _ text x s' p); [exact Hm | congruence].
Qed.

End ShapeFacts.
Import ShapeFacts.

Module SegmentFacts.

Lemma join_piece_occurs (sep p : str) (ps : list str) :
  In p ps -> occurs p (join sep ps).
Proof.
  induction ps as [|q ps IH]; intros H; [destruct H|].
  destruct ps as [|q' ps].
  - destruct H as [-> | []]. exists [], []. cbn. now rewrite app_nil_r.
  - change (join sep (q :: q' :: ps)) with (q ++ sep ++ join sep (q' :: ps)).
    destruct H as [-> | H].
    + now exists [], (sep ++ join sep (q' :: ps)).
    + destruct (IH H) as (a & b & ->).
      exists (q ++ sep ++ a), b. now rewrite <- !app_assoc.
Qed.

Lemma split_piece_occurs (s sep p : str) :
  sep <> [] -> In p (split s sep) -> occurs p s.
Proof.
  intros Hsep H. rewrite <- (join_split s Hsep). now apply join_piece_occurs.
Qed.

(** Each match listed by [findall] is a match at its own position. *)
Lemma findall_matches (r : regex) (text seg : str) :
  In seg (findall r text) ->
  exists b res,
    match_at r b (skipn b text) = Some res
    /\ seg = group_text text (grp res).
Proof.
  unfold findall, group_spans. intros Hin.
  apply in_map_iff in Hin as (g & <- & Hin).
  apply in_map_iff in Hin as ([b res] & <- & Hin).
  assert (HF : Forall (fun m =>
                match_at r (fst m) (skipn (fst m) text) = Some (snd m))
                (finditer (S (List.length text)) r 0 text)).
  { apply finditer_forall_at with (text := text); [|reflexivity].
    intros p s b' res' Hs H. cbn [fst snd]. eapply search_at; eauto. }
  apply (proj1 (Forall_forall _ _) HF) in Hin. cbn [fst snd] in *. eauto.
Qed.

Lemma inline_findall_delimited (block seg : str) :
  In seg (findall inline_math block) ->
  exists u c,
    seg = dollar :: u ++ [c; dollar] /\ c <> backslash /\ occurs seg block.
Proof.
  intros Hin. apply findall_matches in Hin as (b & res & Hm & ->).
  apply inline_match_shape in Hm as (x & u & c & Hs & _ & _ & Hc & Hg & _).
  exists u, c. rewrite Hg. cbn [group_text].
  assert (Hs' : skipn (S b) block = (dollar :: u ++ [c; dollar]) ++ rest res).
  { replace (S b) with (b + List.length [x]) by (simpl; lia).
    apply skipn_add_app. rewrite Hs. cbn [app]. f_equal. f_equal.
    now rewrite <- app_assoc. }
  rewrite (@slice_app block _ (rest res) _ Hs'). repeat split; [exact Hc|].
  eapply skipn_occurs; eauto.
Qed.

Lemma display_match_text (text : str) (b : nat) (res : mstate) :
  match_at display_math b (skipn b text) = Some res ->
  exists q u c,
    skipn q text
    = (dollar :: dollar :: u ++ [c; dollar; dollar]) ++ rest res
    /\ grp res
       = Some (q, q + List.length
                        (dollar :: dollar :: u ++ [c; dollar; dollar]))
    /\ c <> backslash
    /\ (forall u1 y d e t, u ++ [c; dollar] = u1 ++ y :: d :: e :: t ->
                           y = backslash \/ d <> dollar \/ e <> dollar).
Proof.
  intros Hm. unfold display_math in Hm.
  apply run_bol_or_chr in Hm as [[-> Hrun] | (x & s' & Hs & _ & Hrun)];
    apply display_group_shape in Hrun as (u & c & Hs' & Hc & Hg & Hmin).
  - exists 0, u, c. repeat split; try assumption.
    rewrite Hs'. cbn [app]. f_equal. f_equal. now rewrite <- app_assoc.
  - exists (S b), u, c. repeat split; try assumption.
    replace (S b) with (b + List.length [x]) by (simpl; lia).
    apply skipn_add_app. rewrite Hs, Hs'. cbn [app]. f_equal. f_equal.
    f_equal. now rewrite <- app_assoc.
Qed.

Lemma display_findall_delimited (text seg : str) :
  In seg (findall display_math text) ->
  exists u c,
    seg = dollar :: dollar :: u ++ [c; dollar; dollar]
    /\ c <> backslash /\ occurs seg text.
Proof.
  intros Hin. apply findall_matches in Hin as (b & res & Hm & ->).
  apply display_match_text in Hm as (q & u & c & Hsk & Hg & Hc & _).
  exists u, c. rewrite Hg. cbn [group_text].
  rewrite (@slice_app text _ (rest res) _ Hsk). repeat split; [exact Hc|].
  eapply skipn_occurs; eauto.
Qed.

Lemma extract_latex_shape (markdown seg : str) :
  In seg (_extract_latex markdown) ->
  occurs seg markdown
  /\ exists u c, seg = dollar :: u ++ [c; dollar] /\ c <> backslash.
Proof.
  intros Hin.
  rewrite extract_latex_eq in Hin. apply in_app_iff in Hin as [Hin | Hin].
  - apply display_findall_delimited in Hin as (u & c & -> & Hc & Hocc).
    split; [exact Hocc|].
    exists (dollar :: u ++ [c]), dollar. split; [|discriminate].
    cbn [app]. f_equal. f_equal. now rewrite <- app_assoc.
  - apply in_flat_map in Hin as (block & Hb & Hseg).
    apply inline_findall_delimited in Hseg as (u & c & -> & Hc & Hocc).
    split; [|eauto].
    apply occurs_trans with (b := block); [exact Hocc|].
    apply split_piece_occurs with (sep := paragraph_break);
      [discriminate | exact Hb].
Qed.

Lemma occurs_in (c : ascii) (seg t : str) :
  occurs seg t -> In c seg -> In c t.
Proof.
  intros (a & b & ->) H. apply in_or_app. right. apply in_or_app. now left.
Qed.

Lemma extract_latex_no_dollar (markdown : str) :
  ~ In dollar markdown -> _extract_latex markdown = [].
Proof.
  intros H. destruct (_extract_latex markdown) as [|seg l] eqn:E;
    [reflexivity|].
  destruct (@extract_latex_shape markdown seg) as (Hocc & u & c & -> & _).
  { rewrite E. now left. }
  destruct H. eapply occurs_in; [exact Hocc | now left].
Qed.

End SegmentFacts.
Import SegmentFacts.

(** X1. Every segment the inline pattern finds in a paragraph is "$", some
    text, a character other than a backslash, "$"; in the paragraph it
    stands right after a character that is neither "$" nor a backslash; and
    it closes at the first "$" that does not follow a backslash, the
    character right after the opening "$" apart. *)
Theorem inline_segment_shape (block seg : str)
        (Hin : In seg (findall inline_math block)) :
  exists x u c,
    seg = dollar :: u ++ [c; dollar]
    /\ c <> backslash
    /\ x <> dollar /\ x <> backslash
    /\ occurs (x :: seg) block
    /\ (forall u1 y d t, u ++ [c] = u1 ++ y :: d :: t ->
                         y = backslash \/ d <> dollar).
Proof.
  apply findall_matches in Hin as (b & res & Hm & ->).
  apply inline_match_shape in Hm
    as (x & u & c & Hs & Hx1 & Hx2 & Hc & Hg & Hmin).
  exists x, u, c. rewrite Hg. cbn [group_text].
  assert (Hs' : skipn (S b) block = (dollar :: u ++ [c; dollar]) ++ rest res).
  { replace (S b) with (b + List.length [x]) by (simpl; lia).
    apply skipn_add_app. rewrite Hs. cbn [app]. f_equal. f_equal.
    now rewrite <- app_assoc. }
  rewrite (@slice_app block _ (rest res) _ Hs'). repeat split; try assumption.
  apply skipn_occurs with (a := b) (r := rest res).
  rewrite Hs. cbn [app]. f_equal. f_equal. now rewrite <- app_assoc.
Qed.

Lemma inline_segment_shape_witness :
  exists x u c,
    ("$a_b$" : str) = dollar :: u ++ [c; dollar]
    /\ c <> backslash
    /\ x <> dollar /\ x <> backslash
    /\ occurs (x :: "$a_b$") "Inline $a_b$ math"
    /\ (forall u1 y d t, u ++ [c] = u1 ++ y :: d :: t ->
                         y = backslash \/ d <> dollar).
Proof.
  apply (@inline_segment_shape "Inline $a_b$ math" "$a_b$").
  vm_compute. left. reflexivity.
Defined.

(** X2. Every segment the display pattern finds in a text is "$$", some
    text, a character other than a backslash, "$$"; it is a piece of the
    text, and it closes at the first "$$" that does not follow a
    backslash. *)
Theorem display_segment_shape (text seg : str)
        (Hin : In seg (findall display_math text)) :
  exists u c,
    seg = dollar :: dollar :: u ++ [c; dollar; dollar]
    /\ c <> backslash
    /\ occurs seg text
    /\ (forall u1 y d e t, u ++ [c; dollar] = u1 ++ y :: d :: e :: t ->
                           y = backslash \/ d <> dollar \/ e <> dollar).
Proof.
  apply findall_matches in Hin as (b & res & Hm & ->).
  apply display_match_text in Hm as (q & u & c & Hsk & Hg & Hc & Hmin).
  exists u, c. rewrite Hg. cbn [group_text].
  rewrite (@slice_app text _ (rest res) _ Hsk).
  repeat split; try assumption.
  eapply skipn_occurs; eauto.
Qed.

Lemma display_segment_shape_witness :
  exists u c,
    ("$$x_1 + x_2$$" : str) = dollar :: dollar :: u ++ [c; dollar; dollar]
    /\ c <> backslash
    /\ occurs "$$x_1 + x_2$$" display_example
    /\ (forall u1 y d e t, u ++ [c; dollar] = u1 ++ y :: d :: e :: t ->
                           y = backslash \/ d <> dollar \/ e <> dollar).
Proof.
  apply (@display_segment_shape display_example "$$x_1 + x_2$$").
  vm_compute. left. reflexivity.
Defined.

(** X3. Every segment returned by [_extract_latex] is a piece of the
    markdown of at least three characters that starts with "$" and ends with
    a character other than a backslash followed by "$". *)
Theorem extract_latex_segments (markdown seg : str)
        (Hin : In seg (_extract_latex markdown)) :
  occurs seg markdown
  /\ 3 <= List.length seg
  /\ exists u c, seg = dollar :: u ++ [c; dollar] /\ c <> backslash.
Proof.
  destruct (extract_latex_shape _ _ Hin) as (Hocc & u & c & -> & Hc).
  split; [exact Hocc|]. split; [|eauto].
  cbn [List.length]. rewrite length_app. cbn. lia.
Qed.

Lemma extract_latex_segments_witness :
  occurs "$$x_1 + x_2$" display_example
  /\ 3 <= List.length ("$$x_1 + x_2$" : str)
  /\ exists u c, ("$$x_1 + x_2$" : str) = dollar :: u ++ [c; dollar]
                 /\ c <> backslash.
Proof.
  apply (@extract_latex_segments display_example "$$x_1 + x_2$").
  vm_compute. right. left. reflexivity.
Defined.

(** X4. A markdown cell whose source has no "$" comes back from
    [preprocess_cell] as it went in: nothing is extracted from it and
    nothing is rewritten, whatever underscores and asterisks it holds. *)
Theorem markdown_without_dollar_unchanged (c : cell) (res : resources)
        (cell_index : nat)
        (Hmd : cell_type c = "markdown")
        (Hno : ~ In dollar (source c)) :
  _extract_latex (source c) = []
  /\ preprocess_cell c res cell_index = Ok (c, res).
Proof.
  pose proof (extract_latex_no_dollar _ Hno) as E. split; [exact E|].
  unfold preprocess_cell. rewrite Hmd, E.
  change (str_eqb "markdown" "markdown") with true. cbv iota.
  cbn [fold_left]. rewrite <- Hmd. now destruct c.
Qed.

Lemma markdown_without_dollar_unchanged_witness :
  preprocess_cell (Cell "markdown" "some *bold* snake_case text" [])
                  example_resources 0
  = Ok (Cell "markdown" "some *bold* snake_case text" [], example_resources).
Proof.
  apply (@markdown_without_dollar_unchanged
           (Cell "markdown" "some *bold* snake_case text" [])
           example_resources 0).
  - reflexivity.
  - vm_compute. intuition discriminate.
Defined.

(** ** Outputs and cells, in detail *)

Module OutputFacts.

Lemma dict_set_keys (d : dict) (k : str) (v v0 : pyval) :
  dict_get d k = Some v0 -> map fst (dict_set d k v) = map fst d.
Proof.
  induction d as [|[k' v'] d IH]; cbn [dict_get dict_set]; [discriminate|].
  destruct (str_eqb k' k) eqn:E; cbn [map fst]; [reflexivity|].
  intros H. now rewrite IH.
Qed.

Lemma dict_set_same_value (d : dict) (k : str) (v : pyval) :
  dict_get d k = Some v -> dict_set d k v = d.
Proof.
  induction d as [|[k' v'] d IH]; cbn [dict_get dict_set]; [discriminate|].
  destruct (str_eqb k' k) eqn:E.
  - now intros [= ->].
  - intros H. now rewrite IH.
Qed.

Lemma clean_output_raises (o : dict) :
  output_wf o = false -> clean_output o = Raise AttributeError.
Proof.
  unfold output_wf, clean_output. intros H.
  destruct (dict_get o "data") as [v|]; [|discriminate].
  destruct v; try reflexivity. cbn [bind].
  destruct (dict_get d "text/latex") as [v|]; [|discriminate].
  apply orb_false_iff in H as [Ht Hs]. apply negb_false_iff in Ht.
  rewrite Ht. destruct v; try reflexivity. discriminate.
Qed.

Lemma clean_output_ok_wf (o o' : dict) :
  clean_output o = Ok o' -> output_wf o = true.
Proof.
  intros H. destruct (output_wf o) eqn:E; [reflexivity|].
  apply clean_output_raises in E. congruence.
Qed.

(** What [clean_output] leaves alone. *)
Lemma clean_output_frame (o o' : dict) :
  clean_output o = Ok o' ->
  map fst o' = map fst o
  /\ output_wf o' = true
  /\ (forall k : str, k <> "data" -> dict_get o' k = dict_get o k)
  /\ (forall d, dict_get o "data" = Some (VDict d) ->
        exists d', dict_get o' "data" = Some (VDict d')
                   /\ map fst d' = map fst d
                   /\ forall k : str, k <> "text/latex" ->
                                dict_get d' k = dict_get d k).
Proof.
  intros H. pose proof (clean_output_ok_wf _ H) as Hwf.
  unfold clean_output in H.
  destruct (dict_get o "data") as [v|] eqn:Ed.
  - destruct v; try discriminate. cbn [bind] in H.
    destruct (dict_get d "text/latex") as [v|] eqn:El.
    + destruct (truthy v) eqn:Et.
      * destruct v; try discriminate. injection H as <-.
        split; [eapply dict_set_keys; eauto|].
        split.
        { unfold output_wf. rewrite !dict_get_set_same.
          cbn [is_str]. apply orb_true_r. }
        split.
        { intros k Hk. apply dict_get_set_other.
          intros E. apply Hk. now rewrite <- E. }
        intros d0 [= <-]. eexists. split; [apply dict_get_set_same|].
        split; [eapply dict_set_keys; eauto|].
        intros k Hk. apply dict_get_set_other.
          intros E. apply Hk. now rewrite <- E.
      * injection H as <-. repeat split; try assumption.
        intros d0 [= <-]. exists d. now repeat split.
    + injection H as <-. repeat split; try assumption.
      intros d0 [= <-]. exists d. now repeat split.
  - cbn [bind dict_get] in H. injection H as <-.
    repeat split; try assumption. intros d0 Hd0. congruence.
Qed.

Lemma mapM_raise (A B : Type) (f : A -> result B) (e : exn) (l : list A) :
  (forall a, In a l -> (exists b, f a = Ok b) \/ f a = Raise e) ->
  (exists a, In a l /\ f a = Raise e) ->
  mapM f l = Raise e.
Proof.
  induction l as [|a l IH]; intros Hall (x & Hx & Hfx); [destruct Hx|].
  cbn [mapM].
  destruct (Hall a (or_introl eq_refl)) as [[b Hb] | Hr].
  - rewrite Hb. cbn [bind]. rewrite IH; [reflexivity | |].
    + intros y Hy. apply Hall. now right.
    + destruct Hx as [-> | Hx]; [congruence | eauto].
  - now rewrite Hr.
Qed.

Lemma mapM_length (A B : Type) (f : A -> result B) (l : list A) :
  forall l', mapM f l = Ok l' -> List.length l' = List.length l.
Proof.
  induction l as [|a l IH]; intros l' H; cbn [mapM] in H.
  - now injection H as <-.
  - destruct (f a); [|discriminate]. cbn [bind] in H.
    destruct (mapM f l); [|discriminate]. cbn [bind] in H.
    injection H as <-. cbn. f_equal. now apply IH.
Qed.

Lemma preprocess_cell_raises (c : cell) (res : resources) (i : nat) :
  cell_wf c = false ->
  preprocess_cell c res i = Raise AttributeError /\ cell_type c = "code".
Proof.
  unfold cell_wf, preprocess_cell. intros H.
  destruct (str_eqb (cell_type c) "markdown"); [discriminate|].
  destruct (str_eqb (cell_type c) "code") eqn:Ec; [|discriminate].
  apply str_eqb_eq in Ec. split; [|exact Ec].
  rewrite (@mapM_raise _ _ clean_output AttributeError); [reflexivity | |].
  - intros o _. destruct (output_wf o) eqn:E.
    + left. now apply clean_output_total.
    + right. now apply clean_output_raises.
  - assert (Hex : exists o, In o (outputs c) /\ output_wf o = false).
    { clear Ec. induction (outputs c) as [|o l IH]; [discriminate|].
      cbn [forallb] in H. apply andb_false_iff in H as [H | H].
      - exists o. split; [now left | exact H].
      - destruct (IH H) as (o' & Ho' & E). exists o'. split; [now right | exact E]. }
    destruct Hex as (o & Ho & E). exists o. split; [exact Ho|].
    now apply clean_output_raises.
Qed.

Lemma preprocess_cell_inv (c c' : cell) (res res' : resources) (i : nat) :
  preprocess_cell c res i = Ok (c', res') ->
  res' = res
  /\ cell_type c' = cell_type c
  /\ ((cell_type c = "code" /\ source c' = source c
       /\ mapM clean_output (outputs c) = Ok (outputs c'))
      \/ (cell_type c <> "code" /\ outputs c' = outputs c
          /\ (cell_type c <> "markdown" -> c' = c))).
Proof.
  unfold preprocess_cell. intros H.
  destruct (str_eqb (cell_type c) "markdown") eqn:Em.
  - injection H as <- <-. cbn [cell_type outputs]. repeat split.
    right. apply str_eqb_eq in Em. rewrite Em.
    repeat split; [discriminate | congruence].
  - destruct (str_eqb (cell_type c) "code") eqn:Ec.
    + destruct (mapM clean_output (outputs c)) as [outs|] eqn:E;
        [|discriminate].
      cbn [bind] in H. injection H as <- <-. cbn [cell_type outputs source].
      repeat split. left. apply str_eqb_eq in Ec. now repeat split.
    + injection H as <- <-. repeat split. right.
      apply str_eqb_neq in Ec. now repeat split.
Qed.

Lemma mapM_forall2 (A B : Type) (f : A -> result B) (l : list A) :
  forall l', mapM f l = Ok l' -> Forall2 (fun a b => f a = Ok b) l l'.
Proof.
  induction l as [|a l IH]; intros l' H; cbn [mapM] in H.
  - injection H as <-. constructor.
  - destruct (f a) eqn:Ea; [|discriminate]. cbn [bind] in H.
    destruct (mapM f l); [|discriminate]. cbn [bind] in H.
    injection H as <-. constructor; [exact Ea | now apply IH].
Qed.

Lemma preprocess_cell_keeps_wf (c c' : cell) (res res' : resources) (i : nat) :
  preprocess_cell c res i = Ok (c', res') -> cell_wf c' = true.
Proof.
  intros H. apply preprocess_cell_inv in H as (_ & Ht & [(Hc & _ & Hm) | (Hc & Ho & _)]).
  - unfold cell_wf. rewrite Ht, Hc.
    change (str_eqb "code" "markdown") with false.
    change (str_eqb "code" "code") with true. cbv iota.
    apply forallb_forall. intros o' Ho'.
    apply mapM_forall2 in Hm.
    clear Ht Hc. induction Hm as [|o o2 l l2 Ho Hm IH]; [destruct Ho'|].
    destruct Ho' as [<- | Ho']; [|now apply IH].
    now apply clean_output_frame in Ho.
  - unfold cell_wf. rewrite Ht.
    destruct (str_eqb (cell_type c) "markdown"); [reflexivity|].
    apply str_eqb_neq in Hc. now rewrite Hc.
Qed.

Lemma preprocess_cells_inv (cs : list cell) (res : resources) :
  forall j cs' res',
    preprocess_cells cs res j = Ok (cs', res') ->
    res' = res
    /\ List.length cs' = List.length cs
    /\ map cell_type cs' = map cell_type cs
    /\ forallb cell_wf cs' = true
    /\ forall i c, nth_error cs i = Some c ->
         exists c', nth_error cs' i = Some c'
                    /\ preprocess_cell c res (j + i) = Ok (c', res).
Proof.
  induction cs as [|c cs IH]; intros j cs' res' H; cbn [preprocess_cells] in H.
  - injection H as <- <-. repeat split. intros [|i] c Hc; discriminate.
  - destruct (preprocess_cell c res j) as [[c1 r1]|] eqn:Ec; [|discriminate].
    cbn [bind snd fst] in H.
    pose proof (preprocess_cell_keeps_wf _ _ _ Ec) as Hwf.
    pose proof (preprocess_cell_inv _ _ _ Ec) as (-> & Ht & _).
    destruct (preprocess_cells cs res (S j)) as [[cs1 r2]|] eqn:Ecs;
      [|discriminate].
    cbn [bind snd fst] in H. injection H as <- <-.
    destruct (IH _ _ _ Ecs) as (-> & Hl & Hm & Hw & Hn).
    repeat split.
    + cbn. now rewrite Hl.
    + cbn [map]. now rewrite Ht, Hm.
    + cbn [forallb]. now rewrite Hwf, Hw.
    + intros [|i] c0 Hc0; cbn [nth_error] in *.
      * injection Hc0 as <-. exists c1. now rewrite Nat.add_0_r.
      * destruct (Hn _ _ Hc0) as (c' & Hc' & Hp). exists c'.
        split; [exact Hc'|]. now rewrite Nat.add_succ_r.
Qed.

Lemma preprocess_cells_raises (cs : list cell) (res : resources) :
  forall j, forallb cell_wf cs = false ->
            preprocess_cells cs res j = Raise AttributeError.
Proof.
  induction cs as [|c cs IH]; intros j H; [discriminate|].
  cbn [forallb] in H. cbn [preprocess_cells].
  destruct (cell_wf c) eqn:Ec.
  - destruct (preprocess_cell_total c res j Ec) as [c' ->]. cbn [bind snd].
    cbn [andb] in H. now rewrite IH.
  - now destruct (preprocess_cell_raises c res j Ec) as [-> _].
Qed.

End OutputFacts.
Import OutputFacts.

(** X5. On a code cell with its list of outputs, [preprocess_cell] goes
    through when every output has no "data" entry or a mapping there, and
    under "text/latex" nothing, a falsy value or a string; with any other
    output it raises [AttributeError]. *)
Theorem code_cell_result (c : cell) (res : resources) (cell_index : nat)
        (Hcode : cell_type c = "code") :
  (forallb output_wf (outputs c) = true ->
   exists c', preprocess_cell c res cell_index = Ok (c', res))
  /\ (forallb output_wf (outputs c) = false ->
      preprocess_cell c res cell_index = Raise AttributeError
      /\ exists o, In o (outputs c) /\ output_wf o = false).
Proof.
  assert (Hwf : cell_wf c = forallb output_wf (outputs c)).
  { unfold cell_wf. now rewrite Hcode. }
  split; intros H.
  - apply preprocess_cell_total. now rewrite Hwf.
  - rewrite <- Hwf in H.
    destruct (preprocess_cell_raises c res cell_index H) as [Hr _].
    split; [exact Hr|]. rewrite Hwf in H. clear Hwf Hr Hcode.
    induction (outputs c) as [|o l IH]; [discriminate|].
    cbn [forallb] in H. apply andb_false_iff in H as [H | H].
    + exists o. split; [now left | exact H].
    + destruct (IH H) as (o' & Ho' & E). exists o'.
      split; [now right | exact E].
Qed.

Lemma code_cell_result_witness :
  preprocess_cell (Cell "code" "1/0" [[("data" : str, VStr "oops")]])
                  example_resources 0
  = Raise AttributeError.
Proof.
  apply (@code_cell_result
           (Cell "code" "1/0" [[("data" : str, VStr "oops")]])
           example_resources 0).
  - reflexivity.
  - reflexivity.
Defined.

(** X6. A cell that goes through [preprocess_cell] keeps its type and the
    number and order of its outputs; a cell that is not markdown keeps its
    source; every output keeps its keys, in order, and all its entries but
    "data", and its "data" mapping keeps its keys and all its entries but
    "text/latex". *)
Theorem preprocess_cell_frame (c : cell) (res : resources) (cell_index : nat)
        (Hwf : cell_wf c = true) :
  exists c',
    preprocess_cell c res cell_index = Ok (c', res)
    /\ cell_type c' = cell_type c
    /\ List.length (outputs c') = List.length (outputs c)
    /\ (cell_type c <> "markdown" -> source c' = source c)
    /\ forall i o,
         nth_error (outputs c) i = Some o ->
         exists o',
           nth_error (outputs c') i = Some o'
           /\ map fst o' = map fst o
           /\ (forall k : str, k <> "data" -> dict_get o' k = dict_get o k)
           /\ (forall d, dict_get o "data" = Some (VDict d) ->
                 exists d', dict_get o' "data" = Some (VDict d')
                            /\ map fst d' = map fst d
                            /\ forall k : str, k <> "text/latex" ->
                                 dict_get d' k = dict_get d k).
Proof.
  destruct (preprocess_cell_total c res cell_index Hwf) as [c' Hp].
  exists c'. split; [exact Hp|].
  destruct (preprocess_cell_inv _ _ _ Hp)
    as (_ & Ht & [(Hc & Hs & Hm) | (Hc & Ho & Hsame)]).
  - split; [exact Ht|]. split; [now apply mapM_length in Hm|].
    split; [intros _; exact Hs|].
    intros i o Hi. destruct (mapM_nth _ _ _ Hm Hi) as (o' & Ho' & Hn).
    exists o'. split; [exact Hn|].
    apply clean_output_frame in Ho' as (Hk & _ & Hother & Hdata).
    now repeat split.
  - split; [exact Ht|]. rewrite Ho. split; [reflexivity|].
    split.
    + intros Hmd. now rewrite (Hsame Hmd).
    + intros i o Hi. exists o. repeat split; try assumption.
      intros d Hd. exists d. now repeat split.
Qed.

Lemma preprocess_cell_frame_witness :
  exists c',
    preprocess_cell example_code_cell example_resources 1
    = Ok (c', example_resources)
    /\ cell_type c' = "code"
    /\ source c' = "display(Math('x_y'))".
Proof.
  destruct (@preprocess_cell_frame example_code_cell example_resources 1)
    as (c' & Hp & Ht & _ & Hs & _).
  - reflexivity.
  - exists c'. repeat split; [exact Hp | exact Ht |].
    apply Hs. discriminate.
Defined.

(** ** Runs of [preprocess] *)

Section RunFacts.

Variable datetime : Type.
Variable getmtime : str -> option datetime.
Variable strftime_local : datetime -> str.

Lemma hugo_entry_present (nb : notebook) :
  exists v,
    dict_get
      match dict_get (metadata nb) "hugo" with
      | None | Some VNone => dict_set (metadata nb) "hugo" (VDict [])
      | Some _ => metadata nb
      end "hugo" = Some v
    /\ (hugo_before nb = None -> forall h, v <> VDict h)
    /\ (forall h, hugo_before nb = Some h -> v = VDict h).
Proof.
  unfold hugo_before.
  destruct (dict_get (metadata nb) "hugo") as [v|] eqn:E.
  - destruct v; rewrite ?dict_get_set_same, ?E; eexists;
      (split; [reflexivity|]); split; intros; congruence.
  - rewrite dict_get_set_same. eexists. split; [reflexivity|].
    split; intros; congruence.
Qed.

Lemma preprocess_bad_hugo (nb : notebook) (res : resources) (ts : datetime) :
  getmtime (os_path_join (path res) (name res ++ ".ipynb")) = Some ts ->
  hugo_before nb = None ->
  preprocess getmtime strftime_local nb res = Raise AttributeError.
Proof.
  intros Hts Hh. unfold preprocess.
  destruct (hugo_entry_present nb) as (v & -> & Hv & _). cbn [bind].
  rewrite Hts. cbn [bind]. specialize (Hv Hh).
  destruct v; try reflexivity. now destruct (Hv d).
Qed.

Lemma preprocess_bad_cell (nb : notebook) (res : resources) (ts : datetime)
      (h : dict) :
  getmtime (os_path_join (path res) (name res ++ ".ipynb")) = Some ts ->
  hugo_before nb = Some h ->
  forallb cell_wf (cells nb) = false ->
  preprocess getmtime strftime_local nb res = Raise AttributeError.
Proof.
  intros Hts Hh Hc. unfold preprocess.
  destruct (hugo_entry_present nb) as (v & -> & _ & Hv). cbn [bind].
  rewrite Hts. cbn [bind]. rewrite (Hv _ Hh). cbn [bind].
  now rewrite preprocess_cells_raises.
Qed.

(** The notebook [preprocess] returns, with what it keeps of the
    metadata. *)
Lemma preprocess_metadata (nb : notebook) (res : resources) (h : dict)
      (ts : datetime) :
  hugo_before nb = Some h ->
  getmtime (os_path_join (path res) (name res ++ ".ipynb")) = Some ts ->
  forallb cell_wf (cells nb) = true ->
  exists md cs,
    preprocess getmtime strftime_local nb res = Ok (Notebook md cs, res)
    /\ dict_get md "hugo"
       = Some (VDict (hugo_defaults strftime_local h ts (name res)))
    /\ (forall k : str, k <> "hugo" -> dict_get md k = dict_get (metadata nb) k)
    /\ preprocess_cells (cells nb) res 0 = Ok (cs, res).
Proof.
  intros Hh Hts Hwf. unfold preprocess.
  destruct (preprocess_cells_total (cells nb) res 0 Hwf) as [cs Hcs].
  destruct (hugo_entry_present nb) as (v & -> & _ & Hv). cbn [bind].
  rewrite Hts. cbn [bind]. rewrite (Hv _ Hh). cbn [bind].
  rewrite Hcs. cbn [bind fst snd].
  eexists. eexists. split; [reflexivity|].
  split; [apply dict_get_set_same|]. split; [|reflexivity].
  intros k Hk. rewrite dict_get_set_other by congruence.
  destruct (dict_get (metadata nb) "hugo") as [[]|];
    try reflexivity; now rewrite dict_get_set_other by congruence.
Qed.

Lemma hugo_defaults_other (h : dict) (ts : datetime) (nm k : str) :
  k <> "date" -> k <> "title" -> k <> "draft" ->
  dict_get (hugo_defaults strftime_local h ts nm) k = dict_get h k.
Proof.
  intros H1 H2 H3. unfold hugo_defaults.
  now rewrite !dict_get_set_other by congruence.
Qed.

Lemma time_format_nonempty (ts : datetime) :
  truthy (VStr (_time_format_hugo strftime_local ts)) = true.
Proof.
  unfold _time_format_hugo. cbn [truthy].
  destruct (slice_to_neg (strftime_local ts) 2); reflexivity.
Qed.

Lemma get_or_fix (d d' : dict) (k : str) (other : pyval) :
  dict_get d' k = Some (get_or d k other) ->
  get_or d' k other = get_or d k other.
Proof.
  unfold get_or. intros ->.
  destruct (dict_get d k) as [v|]; [destruct (truthy v) eqn:E|];
    rewrite ?E; try reflexivity; now destruct (truthy other).
Qed.

Lemma get_or_truthy (d : dict) (k : str) (other : pyval) :
  truthy other = true -> truthy (get_or d k other) = true.
Proof.
  unfold get_or. intros H.
  destruct (dict_get d k) as [v|]; [destruct (truthy v) eqn:E|]; assumption.
Qed.

End RunFacts.

(** A second pass of the defaulting changes nothing, also with another
    modification time. *)
Lemma hugo_defaults_stable (datetime : Type) (s s' : datetime -> str)
      (h : dict) (ts ts' : datetime) (nm : str) :
  hugo_defaults s' (hugo_defaults s h ts nm) ts' nm = hugo_defaults s h ts nm.
Proof.
  set (h1 := hugo_defaults s h ts nm).
  assert (Hd : dict_get h1 "date"
               = Some (get_or h "date" (VStr (_time_format_hugo s ts))))
    by apply hugo_defaults_date.
  assert (Ht : dict_get h1 "title"
               = Some (get_or h "title" (VStr (default_title nm))))
    by apply hugo_defaults_title.
  assert (Hr : dict_get h1 "draft"
               = Some (dict_get_default h "draft" (VBool true)))
    by apply hugo_defaults_draft.
  unfold hugo_defaults at 1. cbv zeta.
  assert (E1 : dict_set h1 "date"
                 (get_or h1 "date" (VStr (_time_format_hugo s' ts'))) = h1).
  { apply dict_set_same_value. unfold get_or at 1. rewrite Hd.
    now rewrite get_or_truthy by apply time_format_nonempty. }
  rewrite E1.
  assert (E2 : dict_set h1 "title"
                 (get_or h1 "title" (VStr (default_title nm))) = h1).
  { apply dict_set_same_value.
    rewrite (@get_or_fix h h1 "title" _ Ht). exact Ht. }
  rewrite E2.
  apply dict_set_same_value. unfold dict_get_default. now rewrite Hr.
Qed.

Section Runs.

Variable datetime : Type.
Variable getmtime : str -> option datetime.
Variable strftime_local : datetime -> str.

(** X7. When the notebook file cannot be read, [preprocess] raises
    [OSError], whatever the notebook holds: the modification time is asked
    for before the hugo mapping is used and before any cell is touched. *)
Theorem preprocess_missing_file (nb : notebook) (res : resources)
        (Hts : getmtime (os_path_join (path res) (name res ++ ".ipynb"))
               = None) :
  preprocess getmtime strftime_local nb res = Raise OSError.
Proof.
  unfold preprocess.
  destruct (hugo_entry_present nb) as (v & -> & _). cbn [bind].
  now rewrite Hts.
Qed.

(** X8. With the notebook file in place, [preprocess] raises
    [AttributeError] when the "hugo" entry of the metadata is neither
    missing, [None] nor a mapping, and when some code cell has an output
    that [preprocess_cell] cannot handle. *)
Theorem preprocess_attribute_error (nb : notebook) (res : resources)
        (ts : datetime)
        (Hts : getmtime (os_path_join (path res) (name res ++ ".ipynb"))
               = Some ts)
        (Hbad : hugo_before nb = None
                \/ forallb cell_wf (cells nb) = false) :
  preprocess getmtime strftime_local nb res = Raise AttributeError.
Proof.
  destruct (hugo_before nb) as [h|] eqn:Hh.
  - destruct Hbad as [Hbad | Hbad]; [discriminate|].
    eapply preprocess_bad_cell; eauto.
  - eapply preprocess_bad_hugo; eauto.
Qed.

(** X9. [preprocess] returns the resources as they were, leaves every
    metadata entry other than "hugo" alone, leaves every entry of the hugo
    mapping other than "date", "title" and "draft" alone, and keeps the
    number of cells and the type of each. *)
Theorem preprocess_frame (nb : notebook) (res : resources)
        (h : dict) (ts : datetime)
        (Hh : hugo_before nb = Some h)
        (Hts : getmtime (os_path_join (path res) (name res ++ ".ipynb"))
               = Some ts)
        (Hcells : forallb cell_wf (cells nb) = true) :
  exists nb' h',
    preprocess getmtime strftime_local nb res = Ok (nb', res)
    /\ hugo_of nb' = Some h'
    /\ (forall k : str, k <> "hugo" ->
          dict_get (metadata nb') k = dict_get (metadata nb) k)
    /\ (forall k : str, k <> "date" -> k <> "title" -> k <> "draft" ->
          dict_get h' k = dict_get h k)
    /\ List.length (cells nb') = List.length (cells nb)
    /\ map cell_type (cells nb') = map cell_type (cells nb).
Proof.
  destruct (preprocess_metadata getmtime strftime_local nb res Hh Hts Hcells)
    as (md & cs & Hp & Hmd & Hother & Hcs).
  apply preprocess_cells_inv in Hcs as (_ & Hl & Hm & _).
  eexists. eexists. split; [exact Hp|].
  unfold hugo_of. cbn [metadata cells]. rewrite Hmd.
  split; [reflexivity|]. split; [exact Hother|].
  split; [|split; assumption].
  intros k H1 H2 H3. now apply hugo_defaults_other.
Qed.

(** X10. The cells of the notebook [preprocess] returns are the cells it
    was given, each passed through [preprocess_cell] with its index, in the
    same order. *)
Theorem preprocess_cells_in_order (nb : notebook) (res : resources)
        (h : dict) (ts : datetime)
        (Hh : hugo_before nb = Some h)
        (Hts : getmtime (os_path_join (path res) (name res ++ ".ipynb"))
               = Some ts)
        (Hcells : forallb cell_wf (cells nb) = true) :
  exists nb',
    preprocess getmtime strftime_local nb res = Ok (nb', res)
    /\ List.length (cells nb') = List.length (cells nb)
    /\ forall i c, nth_error (cells nb) i = Some c ->
         exists c', nth_error (cells nb') i = Some c'
                    /\ preprocess_cell c res i = Ok (c', res).
Proof.
  destruct (preprocess_metadata getmtime strftime_local nb res Hh Hts Hcells)
    as (md & cs & Hp & _ & _ & Hcs).
  apply preprocess_cells_inv in Hcs as (_ & Hl & _ & _ & Hn).
  eexists. split; [exact Hp|]. cbn [cells]. split; [exact Hl|]. exact Hn.
Qed.

(** X11. With no hugo metadata in the notebook (no "hugo" entry, [None], or
    an empty mapping), [preprocess] leaves a hugo mapping of exactly three
    entries: "date", the formatted modification time; "title", the title
    made from the file name; "draft", true. *)
Theorem preprocess_fresh_notebook (nb : notebook) (res : resources)
        (ts : datetime)
        (Hh : hugo_before nb = Some [])
        (Hts : getmtime (os_path_join (path res) (name res ++ ".ipynb"))
               = Some ts)
        (Hcells : forallb cell_wf (cells nb) = true) :
  exists nb',
    preprocess getmtime strftime_local nb res = Ok (nb', res)
    /\ hugo_of nb'
       = Some [("date" : str, VStr (_time_format_hugo strftime_local ts));
               ("title" : str, VStr (default_title (name res)));
               ("draft" : str, VBool true)].
Proof.
  destruct (preprocess_metadata getmtime strftime_local nb res Hh Hts Hcells)
    as (md & cs & Hp & Hmd & _).
  eexists. split; [exact Hp|].
  unfold hugo_of. cbn [metadata]. now rewrite Hmd.
Qed.

Variable getmtime' : str -> option datetime.
Variable strftime_local' : datetime -> str.

(** X12. Running [preprocess] again on its own result, even after the file
    changed and in another time zone, leaves the metadata as the first run
    set them: the date of the first run stays. *)
Theorem preprocess_rerun_metadata (nb : notebook) (res : resources)
        (h : dict) (ts ts' : datetime)
        (Hh : hugo_before nb = Some h)
        (Hts : getmtime (os_path_join (path res) (name res ++ ".ipynb"))
               = Some ts)
        (Hts' : getmtime' (os_path_join (path res) (name res ++ ".ipynb"))
                = Some ts')
        (Hcells : forallb cell_wf (cells nb) = true) :
  exists nb1 nb2,
    preprocess getmtime strftime_local nb res = Ok (nb1, res)
    /\ preprocess getmtime' strftime_local' nb1 res = Ok (nb2, res)
    /\ forall k : str, dict_get (metadata nb2) k = dict_get (metadata nb1) k.
Proof.
  destruct (preprocess_metadata getmtime strftime_local nb res Hh Hts Hcells)
    as (md & cs & Hp & Hmd & _ & Hcs).
  apply preprocess_cells_inv in Hcs as (_ & _ & _ & Hwf & _).
  set (h1 := hugo_defaults strftime_local h ts (name res)) in *.
  assert (Hh1 : hugo_before (Notebook md cs) = Some h1).
  { unfold hugo_before. cbn [metadata]. now rewrite Hmd. }
  destruct (preprocess_metadata getmtime' strftime_local' (Notebook md cs) res
              Hh1 Hts' Hwf)
    as (md2 & cs2 & Hp2 & Hmd2 & Hother2 & _).
  eexists. eexists. split; [exact Hp|]. split; [exact Hp2|].
  cbn [metadata] in *. intros k.
  destruct (list_eq_dec ascii_dec k "hugo") as [-> | Hk].
  - rewrite Hmd, Hmd2. unfold h1. now rewrite hugo_defaults_stable.
  - now apply Hother2.
Qed.

End Runs.

Lemma preprocess_missing_file_witness :
  preprocess example_getmtime example_strftime (example_notebook [])
             (Resources "posts" "no_such_post")
  = Raise OSError.
Proof.
  apply (@preprocess_missing_file Z example_getmtime example_strftime).
  reflexivity.
Defined.

Lemma preprocess_attribute_error_witness :
  preprocess example_getmtime example_strftime
             (Notebook [("hugo" : str, VStr "draft")] []) example_resources
  = Raise AttributeError.
Proof.
  apply (@preprocess_attribute_error Z example_getmtime example_strftime
           (Notebook [("hugo" : str, VStr "draft")] []) example_resources
           1577930645%Z).
  - reflexivity.
  - left. reflexivity.
Defined.

Lemma preprocess_frame_witness :
  exists nb' h',
    preprocess example_getmtime example_strftime
               (Notebook [("kernelspec" : str, VDict [("name" : str, VStr "python3")]);
                          ("hugo" : str, VDict [("tags" : str, VList [VStr "math"])])]
                         [example_markdown_cell; example_code_cell])
               example_resources
    = Ok (nb', example_resources)
    /\ hugo_of nb' = Some h'
    /\ dict_get (metadata nb') "kernelspec"
       = Some (VDict [("name" : str, VStr "python3")])
    /\ dict_get h' "tags" = Some (VList [VStr "math"]).
Proof.
  destruct (@preprocess_frame Z example_getmtime example_strftime
              (Notebook [("kernelspec" : str, VDict [("name" : str, VStr "python3")]);
                         ("hugo" : str, VDict [("tags" : str, VList [VStr "math"])])]
                        [example_markdown_cell; example_code_cell])
              example_resources
              [("tags" : str, VList [VStr "math"])]
              1577930645%Z)
    as (nb' & h' & Hp & Hh & Hmd & Hk & _).
  - reflexivity.
  - reflexivity.
  - reflexivity.
  - exists nb', h'. repeat split; [exact Hp | exact Hh | |].
    + rewrite Hmd; [reflexivity | discriminate].
    + rewrite Hk; [reflexivity | discriminate ..].
Defined.

Lemma preprocess_cells_in_order_witness :
  exists nb',
    preprocess example_getmtime example_strftime (example_notebook [])
               example_resources
    = Ok (nb', example_resources)
    /\ List.length (cells nb') = 2.
Proof.
  destruct (@preprocess_cells_in_order Z example_getmtime example_strftime
              (example_notebook []) example_resources [] 1577930645%Z)
    as (nb' & Hp & Hl & _).
  - reflexivity.
  - reflexivity.
  - reflexivity.
  - exists nb'. split; [exact Hp | exact Hl].
Defined.

Lemma preprocess_fresh_notebook_witness :
  exists nb',
    preprocess example_getmtime example_strftime
               (Notebook [] [example_markdown_cell]) example_resources
    = Ok (nb', example_resources)
    /\ hugo_of nb'
       = Some [("date" : str, VStr "2020-01-02T03:04:05+01:00");
               ("title" : str, VStr "My First Post");
               ("draft" : str, VBool true)].
Proof.
  apply (@preprocess_fresh_notebook Z example_getmtime example_strftime
           (Notebook [] [example_markdown_cell]) example_resources
           1577930645%Z).
  - reflexivity.
  - reflexivity.
  - reflexivity.
Defined.

Lemma preprocess_rerun_metadata_witness :
  exists nb1 nb2,
    preprocess example_getmtime example_strftime (example_notebook [])
               example_resources
    = Ok (nb1, example_resources)
    /\ preprocess (fun _ => Some 1600000000%Z)
                  (fun _ => "2020-09-13T12:26:40+0000" : str) nb1
                  example_resources
       = Ok (nb2, example_resources)
    /\ forall k : str, dict_get (metadata nb2) k = dict_get (metadata nb1) k.
Proof.
  apply (@preprocess_rerun_metadata Z example_getmtime example_strftime
           (fun _ => Some 1600000000%Z)
           (fun _ => "2020-09-13T12:26:40+0000" : str)
           (example_notebook []) example_resources [] 1577930645%Z
           1600000000%Z).
  - reflexivity.
  - reflexivity.
  - reflexivity.
  - reflexivity.
Defined.

(** ** Quoting and titles *)

Module TextFacts.

Lemma escape_char_absent (c : ascii) (s : str) :
  ~ In c s -> escape_char c s = s.
Proof.
  unfold escape_char. induction s as [|x s IH]; intros H; [reflexivity|].
  cbn [flat_map]. destruct (Ascii.eqb c x) eqn:E.
  - apply Ascii.eqb_eq in E. subst x. destruct H. now left.
  - cbn [app]. f_equal. apply IH. intros Hs. apply H. now right.
Qed.

Lemma escape_char_keeps (c x : ascii) (s : str) :
  In x s -> In x (escape_char c s).
Proof.
  unfold escape_char. induction s as [|y s IH]; intros H; [destruct H|].
  cbn [flat_map]. apply in_or_app. destruct H as [-> | H]; [|right; auto].
  left. destruct (Ascii.eqb c x) eqn:E.
  - apply Ascii.eqb_eq in E. subst x. right. now left.
  - now left.
Qed.

Lemma escape_char_length (c : ascii) (s : str) :
  List.length (escape_char c s) = List.length s + count_occ ascii_dec s c.
Proof.
  unfold escape_char. induction s as [|x s IH]; [reflexivity|].
  cbn [flat_map count_occ]. rewrite length_app, IH.
  destruct (ascii_dec x c) as [-> | Hx].
  - rewrite Ascii.eqb_refl. cbn. lia.
  - assert (E : Ascii.eqb c x = false) by (apply Ascii.eqb_neq; congruence).
    rewrite E. cbn. lia.
Qed.

Lemma replace_absent (s old new : str) :
  old <> [] -> ~ occurs old s -> replace s old new = s.
Proof.
  intros Hold H. rewrite replace_join_split by assumption.
  now rewrite not_occurs_split.
Qed.

Lemma newline_step_length (s : str) :
  List.length s <= List.length (replace s "\\" "\newline").
Proof.
  assert (Hsep : list_ascii_of_string "\\" <> []) by discriminate.
  induction s as [|r IH|c r Hc IH] using (scan_ind Hsep).
  - cbn. lia.
  - rewrite replace_hit by assumption. rewrite !length_app.
    change (List.length (list_ascii_of_string "\\")) with 2.
    change (List.length (list_ascii_of_string "\newline")) with 8. lia.
  - rewrite replace_miss by assumption. cbn [List.length]. lia.
Qed.

Lemma newline_step_keeps (x : ascii) (s : str) :
  x <> backslash -> In x s -> In x (replace s "\\" "\newline").
Proof.
  intros Hx. unfold backslash in Hx.
  assert (Hsep : list_ascii_of_string "\\" <> []) by discriminate.
  induction s as [|r IH|c r Hc IH] using (scan_ind Hsep); intros H.
  - destruct H.
  - rewrite replace_hit by assumption. apply in_or_app. right. apply IH.
    cbn in H. destruct H as [H | [H | H]]; [congruence | congruence | exact H].
  - rewrite replace_miss by assumption.
    destruct H as [-> | H]; [now left | right; auto].
Qed.

Lemma quoted_latex_keeps (x : ascii) (l : str) :
  x <> backslash -> In x l -> In x (quoted_latex l).
Proof.
  intros Hx H. rewrite quoted_latex_eq.
  now apply escape_char_keeps, escape_char_keeps, newline_step_keeps.
Qed.

Lemma quoted_latex_length (l : str) :
  List.length l
  + count_occ ascii_dec (replace l "\\" "\newline") underscore
  <= List.length (quoted_latex l)
  /\ List.length l
     + count_occ ascii_dec
         (escape_char underscore (replace l "\\" "\newline")) asterisk
     <= List.length (quoted_latex l).
Proof.
  rewrite quoted_latex_eq, !escape_char_length.
  pose proof (newline_step_length l). lia.
Qed.

Lemma quoted_latex_longer (l : str) :
  In underscore l \/ In asterisk l ->
  List.length l < List.length (quoted_latex l).
Proof.
  intros H. destruct (quoted_latex_length l) as [H1 H2].
  destruct H as [H | H].
  - apply (newline_step_keeps (x := underscore)) in H; [|discriminate].
    apply (count_occ_In ascii_dec) in H. lia.
  - apply (newline_step_keeps (x := asterisk)) in H; [|discriminate].
    apply (escape_char_keeps underscore) in H.
    apply (count_occ_In ascii_dec) in H. lia.
Qed.

Lemma join_length_map (f : str -> str) (sep sep' : str) (ps : list str) :
  (forall p, List.length (f p) = List.length p) ->
  List.length sep = List.length sep' ->
  List.length (join sep (map f ps)) = List.length (join sep' ps).
Proof.
  intros Hf Hs. induction ps as [|p ps IH]; [reflexivity|].
  destruct ps as [|q ps]; [apply Hf|].
  change (map f (p :: q :: ps)) with (f p :: f q :: map f ps).
  change (join sep (f p :: f q :: map f ps))
    with (f p ++ sep ++ join sep (map f (q :: ps))).
  change (join sep' (p :: q :: ps)) with (p ++ sep' ++ join sep' (q :: ps)).
  rewrite !length_app, Hf, Hs, IH. reflexivity.
Qed.

Lemma in_join (x : ascii) (sep : str) (ps : list str) :
  In x (join sep ps) -> In x sep \/ exists p, In p ps /\ In x p.
Proof.
  induction ps as [|p ps IH]; intros H; [destruct H|].
  destruct ps as [|q ps].
  - right. exists p. split; [now left | exact H].
  - change (join sep (p :: q :: ps)) with (p ++ sep ++ join sep (q :: ps)) in H.
    apply in_app_or in H as [H | H]; [right; exists p; split; [now left | exact H]|].
    apply in_app_or in H as [H | H]; [now left|].
    destruct (IH H) as [Hs | (p' & Hp' & Hx)]; [now left|].
    right. exists p'. split; [now right | exact Hx].
Qed.

Lemma upper_char_underscore (c : ascii) :
  upper_char c = underscore -> c = underscore.
Proof.
  destruct c as [b0 b1 b2 b3 b4 b5 b6 b7].
  destruct b0, b1, b2, b3, b4, b5, b6, b7; vm_compute; intros H;
    solve [reflexivity | discriminate].
Qed.

Lemma lower_char_underscore (c : ascii) :
  lower_char c = underscore -> c = underscore.
Proof.
  destruct c as [b0 b1 b2 b3 b4 b5 b6 b7].
  destruct b0, b1, b2, b3, b4, b5, b6, b7; vm_compute; intros H;
    solve [reflexivity | discriminate].
Qed.

Lemma capitalize_underscore (p : str) :
  In underscore (capitalize p) -> In underscore p.
Proof.
  destruct p as [|c r]; [intros []|]. cbn [capitalize].
  intros [H | H].
  - left. now apply upper_char_underscore.
  - right. apply in_map_iff in H as (y & Hy & Hin).
    apply lower_char_underscore in Hy. now subst y.
Qed.

Lemma capitalize_length (p : str) :
  List.length (capitalize p) = List.length p.
Proof. destruct p; [reflexivity|]. cbn. now rewrite length_map. Qed.

Lemma in_occurs_char (x : ascii) (s : str) : In x s -> occurs [x] s.
Proof.
  intros H. apply in_split in H as (a & b & ->). now exists a, b.
Qed.

End TextFacts.
Import TextFacts.

(** X13. [_time_format_hugo] puts a colon before the last two characters of
    what [strftime] gives, so that an offset "+HHMM" reads "+HH:MM"; the
    result is one character longer. *)
Theorem time_format_hugo_colon (datetime : Type)
        (strftime_local : datetime -> str) (ts : datetime)
        (p : str) (a b : ascii)
        (Hout : strftime_local ts = p ++ [a; b]) :
  _time_format_hugo strftime_local ts = p ++ ":" ++ [a; b]
  /\ List.length (_time_format_hugo strftime_local ts)
     = S (List.length (strftime_local ts)).
Proof.
  unfold _time_format_hugo, slice_to_neg, slice_from_neg. rewrite Hout.
  rewrite length_app. cbn [List.length].
  replace (List.length p + 2 - 2) with (List.length p) by lia.
  rewrite firstn_app, skipn_app, Nat.sub_diag, firstn_all, skipn_all.
  cbn [firstn skipn app]. rewrite app_nil_r. split; [reflexivity|].
  rewrite !length_app. cbn. lia.
Qed.

Lemma time_format_hugo_colon_witness :
  _time_format_hugo example_strftime 1577930645%Z
  = "2020-01-02T03:04:05+01:00".
Proof.
  apply (@time_format_hugo_colon Z example_strftime 1577930645%Z
           "2020-01-02T03:04:05+01" "0"%char "0"%char).
  reflexivity.
Defined.

(** X14. LaTeX with no "_", no "*" and no two adjacent backslashes is its
    own quoted form, and [_clean_latex] then returns the text as it is. *)
Theorem quoted_latex_plain (text latex : str)
        (Hu : ~ In underscore latex)
        (Ha : ~ In asterisk latex)
        (Hb : ~ occurs [backslash; backslash] latex) :
  quoted_latex latex = latex /\ _clean_latex text latex = text.
Proof.
  assert (Hq : quoted_latex latex = latex).
  { rewrite quoted_latex_eq.
    rewrite (@replace_absent latex "\\" "\newline");
      [|discriminate | exact Hb].
    rewrite (@escape_char_absent underscore latex Hu).
    now rewrite (@escape_char_absent asterisk latex Ha). }
  split; [exact Hq|].
  unfold _clean_latex. rewrite Hq.
  destruct latex as [|c l].
  - cbn [replace app]. apply flat_map_singleton.
  - rewrite replace_join_split by discriminate.
    apply join_split. discriminate.
Qed.

Lemma quoted_latex_plain_witness :
  quoted_latex "$x^2 + y$" = "$x^2 + y$"
  /\ _clean_latex "so $x^2 + y$ holds" "$x^2 + y$" = "so $x^2 + y$ holds".
Proof.
  apply (@quoted_latex_plain "so $x^2 + y$ holds" "$x^2 + y$").
  - vm_compute. intuition discriminate.
  - vm_compute. intuition discriminate.
  - intros H. apply (@split_piece_free "$x^2 + y$" "\\") in H.
    + exact H.
    + discriminate.
    + vm_compute. left. reflexivity.
Defined.

(** X15. Quoting never shortens LaTeX, and LaTeX that holds a "_" or a "*"
    gets longer each time it is quoted: quoting what is already quoted
    quotes it again. *)
Theorem quoted_latex_grows (latex : str) :
  List.length latex <= List.length (quoted_latex latex)
  /\ (In underscore latex \/ In asterisk latex ->
      List.length latex < List.length (quoted_latex latex)
      /\ List.length (quoted_latex latex)
         < List.length (quoted_latex (quoted_latex latex))
      /\ quoted_latex (quoted_latex latex) <> quoted_latex latex).
Proof.
  split.
  - destruct (quoted_latex_length latex). lia.
  - intros H. split; [now apply quoted_latex_longer|].
    assert (Hq : List.length (quoted_latex latex)
                 < List.length (quoted_latex (quoted_latex latex))).
    { apply quoted_latex_longer.
      destruct H as [H | H]; [left | right];
        (apply quoted_latex_keeps; [discriminate | exact H]). }
    split; [exact Hq|]. intros E. rewrite E in Hq. lia.
Qed.

Lemma quoted_latex_grows_witness :
  quoted_latex (quoted_latex "$a_b$") <> quoted_latex "$a_b$".
Proof.
  apply (quoted_latex_grows "$a_b$").
  left. vm_compute. intuition.
Defined.

(** X16. The title made from a file name of ASCII characters is as long as
    the name and holds no underscore: every "_" of the name has become a
    space. *)
Theorem default_title_shape (name : str)
        (Hascii : is_ascii name = true) :
  List.length (default_title name) = List.length name
  /\ ~ In underscore (default_title name).
Proof.
  assert (Hsep : list_ascii_of_string "_" <> []) by discriminate.
  unfold default_title. split.
  - rewrite (@join_length_map capitalize " " "_");
      [| apply capitalize_length | reflexivity].
    now rewrite join_split.
  - intros H. apply in_join in H as [H | (p & Hp & Hx)].
    + cbn in H. destruct H as [H | []]. discriminate.
    + apply in_map_iff in Hp as (q & <- & Hq).
      apply capitalize_underscore in Hx.
      apply (@split_piece_free name "_" Hsep q Hq).
      now apply in_occurs_char.
Qed.

Lemma default_title_shape_witness :
  List.length (default_title "my_first_post") = 13
  /\ ~ In underscore (default_title "my_first_post").
Proof.
  apply (@default_title_shape "my_first_post"). reflexivity.
Defined.

(** ** The loop over the segments *)

Module LoopFacts.

Lemma fold_clean_fixed (text : str) (segs : list str) :
  (forall seg, In seg segs -> _clean_latex text seg = text) ->
  fold_left _clean_latex segs text = text.
Proof.
  induction segs as [|seg segs IH]; intros H; [reflexivity|].
  cbn [fold_left]. rewrite (H seg) by now left.
  apply IH. intros s Hs. apply H. now right.
Qed.

Lemma search_skip (r : regex) (pre s : str) :
  forall p,
    (forall a b, pre = a ++ b -> b <> [] ->
                 match_at r (p + List.length a) (b ++ s) = None) ->
    search r p (pre ++ s) = search r (p + List.length pre) s.
Proof.
  induction pre as [|c pre IH]; intros p H.
  - cbn [app List.length]. now rewrite Nat.add_0_r.
  - cbn [app search].
    pose proof (H [] (c :: pre) eq_refl ltac:(discriminate)) as H0.
    cbn [List.length app] in H0. rewrite Nat.add_0_r in H0. rewrite H0.
    rewrite IH.
    + cbn [List.length]. f_equal. lia.
    + intros a b -> Hb.
      specialize (H (c :: a) b eq_refl Hb). cbn [List.length] in H.
      now rewrite Nat.add_succ_r in H.
Qed.

(** Without a "$" next in line the inline pattern cannot start. *)
Lemma inline_needs_dollar (p : nat) (x y : ascii) (s : str) :
  y <> dollar -> match_at inline_math p (x :: y :: s) = None.
Proof.
  intros Hy. unfold match_at, inline_math. cbn [run rest pos grp].
  destruct (cset_mem (NoneOf [dollar; backslash]) x); [|reflexivity].
  cbn [cset_mem]. apply not_eq_sym in Hy. apply Ascii.eqb_neq in Hy.
  now rewrite Hy.
Qed.

Lemma inline_match_exists (p : nat) (x c : ascii) (w tail : str) :
  x <> dollar -> x <> backslash -> c <> backslash ->
  match_at inline_math p (x :: dollar :: w ++ c :: dollar :: tail) <> None.
Proof.
  intros Hx1 Hx2 Hc. unfold match_at, inline_math. cbn [run rest pos grp].
  apply Ascii.eqb_neq in Hx1, Hx2, Hc.
  cbn [cset_mem existsb]. rewrite Hx1, Hx2. cbn [orb negb].
  rewrite Ascii.eqb_refl.
  apply lazy_loop_complete.
  - apply Forall_forall. reflexivity.
  - cbn [rest pos grp existsb]. rewrite Hc. cbn [orb negb].
    rewrite Ascii.eqb_refl. discriminate.
Qed.

End LoopFacts.
Import LoopFacts.

(** X17. A markdown cell whose source has no "_", no "*" and no two
    adjacent backslashes comes back from [preprocess_cell] as it went in,
    whatever LaTeX is found in it. *)
Theorem markdown_without_specials_unchanged (c : cell) (res : resources)
        (cell_index : nat)
        (Hmd : cell_type c = "markdown")
        (Hu : ~ In underscore (source c))
        (Ha : ~ In asterisk (source c))
        (Hb : ~ occurs [backslash; backslash] (source c)) :
  preprocess_cell c res cell_index = Ok (c, res).
Proof.
  unfold preprocess_cell. rewrite Hmd.
  change (str_eqb "markdown" "markdown") with true. cbv iota.
  rewrite fold_clean_fixed.
  - rewrite <- Hmd. now destruct c.
  - intros seg Hseg. apply extract_latex_shape in Hseg as [Hocc _].
    apply quoted_latex_plain.
    + intros H. apply Hu. eapply occurs_in; eauto.
    + intros H. apply Ha. eapply occurs_in; eauto.
    + intros H. apply Hb. eapply occurs_trans; eauto.
Qed.

Lemma markdown_without_specials_unchanged_witness :
  preprocess_cell (Cell "markdown" "Euler: $e^{i\pi} + 1 = 0$." [])
                  example_resources 0
  = Ok (Cell "markdown" "Euler: $e^{i\pi} + 1 = 0$." [], example_resources).
Proof.
  apply (@markdown_without_specials_unchanged
           (Cell "markdown" "Euler: $e^{i\pi} + 1 = 0$." [])
           example_resources 0).
  - reflexivity.
  - vm_compute. intuition discriminate.
  - vm_compute. intuition discriminate.
  - intros H.
    apply (@split_piece_free "Euler: $e^{i\pi} + 1 = 0$." "\\") in H.
    + exact H.
    + discriminate.
    + vm_compute. left. reflexivity.
Defined.

(** X18. When a paragraph opens with text that holds no "$", ends that text
    with a character other than a backslash and goes on with a display block
    "$$...$$", the inline pattern also reports a segment there: it opens on
    the first "$" of the block and closes no later than on the first "$" of
    the closing "$$". *)
Theorem inline_reports_display_block (pre : str) (x : ascii) (body : str)
        (c : ascii) (tail : str)
        (Hpre : ~ In dollar pre)
        (Hx1 : x <> dollar) (Hx2 : x <> backslash)
        (Hc : c <> backslash) :
  exists e spans,
    group_spans inline_math
      (pre ++ x :: dollar :: dollar :: body ++ c :: dollar :: dollar :: tail)
    = Some (S (List.length pre), e) :: spans
    /\ S (List.length pre) + 3 <= e
    /\ e <= S (List.length pre) + List.length body + 4.
Proof.
  set (blk := x :: dollar :: dollar :: body ++ c :: dollar :: dollar :: tail).
  unfold group_spans. cbn [finditer].
  assert (Hskip : search inline_math 0 (pre ++ blk)
                  = search inline_math (0 + List.length pre) blk).
  { apply search_skip. intros a b -> Hb.
    destruct b as [|y b]; [congruence|]. cbn [app].
    destruct b as [|z b].
    - cbn [app]. unfold blk. apply inline_needs_dollar. exact Hx1.
    - cbn [app]. apply inline_needs_dollar. intros ->.
      apply Hpre. apply in_or_app. right. right. now left. }
  rewrite Hskip. cbn [Nat.add].
  pose proof (@inline_match_exists (List.length pre) x c (dollar :: body)
                (dollar :: tail) Hx1 Hx2 Hc) as Hex.
  cbn [app] in Hex. fold blk in Hex.
  destruct (match_at inline_math (List.length pre) blk) as [res|] eqn:Em;
    [|congruence].
  assert (Hs : search inline_math (List.length pre) blk
               = Some (List.length pre, res)).
  { unfold blk in *. cbn [search]. now rewrite Em. }
  rewrite Hs. cbn [map snd].
  apply inline_match_shape in Em
    as (x' & u & c' & Hblk & _ & _ & _ & Hg & Hmin).
  rewrite Hg. eexists. eexists. split; [reflexivity|].
  cbn [List.length]. rewrite length_app. cbn [List.length].
  split; [lia|].
  assert (Hle : List.length u <= S (List.length body)); [|lia].
  apply Nat.nlt_ge. intros Hlt.
  unfold blk in Hblk. injection Hblk as _ Hblk.
  assert (Hpre' : u ++ [c']
                  = (dollar :: body) ++ c :: dollar
                    :: firstn (List.length u - List.length body - 2)
                         (dollar :: tail)).
  { assert (Hl : dollar :: body ++ c :: dollar :: dollar :: tail
                 = ((dollar :: body) ++ [c; dollar]) ++ dollar :: tail)
      by (rewrite <- app_assoc; reflexivity).
    assert (Hr : u ++ c' :: dollar :: rest res
                 = (u ++ [c']) ++ dollar :: rest res)
      by (rewrite <- app_assoc; reflexivity).
    rewrite Hl, Hr in Hblk.
    apply (f_equal (firstn (S (List.length u)))) in Hblk.
    rewrite (firstn_app (S (List.length u)) (u ++ [c'])) in Hblk.
    rewrite (@firstn_all2 _ (S (List.length u)) (u ++ [c'])) in Hblk
      by (rewrite length_app; cbn [List.length]; lia).
    replace (S (List.length u) - List.length (u ++ [c'])) with 0 in Hblk
      by (rewrite length_app; cbn [List.length]; lia).
    rewrite firstn_O, app_nil_r in Hblk.
    rewrite firstn_app in Hblk.
    rewrite (@firstn_all2 _ (S (List.length u))
               ((dollar :: body) ++ [c; dollar])) in Hblk
      by (rewrite length_app; cbn [List.length]; lia).
    assert (En : S (List.length u)
                 - List.length ((dollar :: body) ++ [c; dollar])
                 = List.length u - List.length body - 2)
      by (rewrite length_app; cbn [List.length]; lia).
    rewrite <- Hblk, <- app_assoc, En. reflexivity. }
  destruct (Hmin (dollar :: body) c dollar _ Hpre') as [E | E]; congruence.
Qed.

Lemma inline_reports_display_block_witness :
  exists e spans,
    group_spans inline_math display_example = Some (9, e) :: spans
    /\ 12 <= e /\ e <= 21.
Proof.
  apply (@inline_reports_display_block "Display:" newline "x_1 + x_"
           "2"%char [newline; "m"; "o"; "r"; "e"]%char).
  - vm_compute. intuition discriminate.
  - discriminate.
  - discriminate.
  - discriminate.
Defined.

(** ** Delimiters, and cells with nothing to quote *)

Module DelimiterFacts.

Lemma startswith_backslashes (a b : ascii) (t : str) :
  startswith (a :: b :: t) "\\"
  = Ascii.eqb backslash a && Ascii.eqb backslash b.
Proof. cbn [startswith list_ascii_of_string]. now rewrite andb_true_r. Qed.

Lemma newline_step_snoc (s : str) (x : ascii) :
  x <> backslash ->
  replace (s ++ [x]) "\\" "\newline" = replace s "\\" "\newline" ++ [x].
Proof.
  intros Hx. apply not_eq_sym, Ascii.eqb_neq in Hx.
  assert (Hsep : list_ascii_of_string "\\" <> []) by discriminate.
  induction s as [|r IH|c r Hc IH] using (scan_ind Hsep).
  - cbn [app]. rewrite replace_miss; [reflexivity | assumption |].
    cbn [startswith list_ascii_of_string]. apply andb_false_r.
  - rewrite <- app_assoc, !replace_hit by assumption.
    now rewrite IH, app_assoc.
  - cbn [app]. rewrite !replace_miss; try assumption.
    + now rewrite IH.
    + destruct r as [|d r]; [|exact Hc].
      cbn [app]. rewrite startswith_backslashes, Hx. apply andb_false_r.
Qed.

Lemma newline_step_cons (s : str) (x : ascii) :
  x <> backslash ->
  replace (x :: s) "\\" "\newline" = x :: replace s "\\" "\newline".
Proof.
  intros Hx. apply replace_miss; [discriminate|].
  apply not_eq_sym, Ascii.eqb_neq in Hx.
  destruct s as [|b t].
  - cbn [startswith list_ascii_of_string]. apply andb_false_r.
  - now rewrite startswith_backslashes, Hx.
Qed.

Lemma escape_char_app (c : ascii) (s t : str) :
  escape_char c (s ++ t) = escape_char c s ++ escape_char c t.
Proof. unfold escape_char. apply flat_map_app. Qed.

Lemma escape_char_other (c x : ascii) :
  c <> x -> escape_char c [x] = [x].
Proof.
  intros H. apply Ascii.eqb_neq in H. unfold escape_char. cbn. now rewrite H.
Qed.

Lemma quoted_latex_cons (x : ascii) (s : str) :
  x <> backslash -> x <> underscore -> x <> asterisk ->
  quoted_latex (x :: s) = x :: quoted_latex s.
Proof.
  intros H1 H2 H3. rewrite !quoted_latex_eq, newline_step_cons by assumption.
  change (x :: replace s "\\" "\newline")
    with ([x] ++ replace s "\\" "\newline").
  rewrite !escape_char_app.
  rewrite (@escape_char_other underscore x) by congruence.
  now rewrite (@escape_char_other asterisk x) by congruence.
Qed.

Lemma quoted_latex_snoc (x : ascii) (s : str) :
  x <> backslash -> x <> underscore -> x <> asterisk ->
  quoted_latex (s ++ [x]) = quoted_latex s ++ [x].
Proof.
  intros H1 H2 H3. rewrite !quoted_latex_eq, newline_step_snoc by assumption.
  rewrite !escape_char_app.
  rewrite (@escape_char_other underscore x) by congruence.
  now rewrite (@escape_char_other asterisk x) by congruence.
Qed.

End DelimiterFacts.
Import DelimiterFacts.

(** X19. Quoting keeps the delimiters of a segment and works on what is
    between them: "$m$" becomes "$", the quoted form of m, "$", and "$$m$$"
    becomes "$$", the quoted form of m, "$$". *)
Theorem quoted_latex_keeps_delimiters (m : str) :
  quoted_latex (dollar :: m ++ [dollar])
  = dollar :: quoted_latex m ++ [dollar]
  /\ quoted_latex (dollar :: dollar :: m ++ [dollar; dollar])
     = dollar :: dollar :: quoted_latex m ++ [dollar; dollar].
Proof.
  assert (H : forall s, quoted_latex (dollar :: s ++ [dollar])
                        = dollar :: quoted_latex s ++ [dollar]).
  { intros s. rewrite quoted_latex_cons by discriminate.
    now rewrite quoted_latex_snoc by discriminate. }
  split; [apply H|].
  change (dollar :: dollar :: m ++ [dollar; dollar])
    with (dollar :: (dollar :: m ++ [dollar; dollar])).
  replace (dollar :: m ++ [dollar; dollar])
    with ((dollar :: m ++ [dollar]) ++ [dollar])
    by (cbn [app]; now rewrite <- app_assoc).
  rewrite H, H. cbn [app]. now rewrite <- app_assoc.
Qed.

(** X20. A code cell none of whose outputs holds a truthy "text/latex"
    payload comes back from [preprocess_cell] as it went in. *)
Theorem code_cell_without_latex_unchanged (c : cell) (res : resources)
        (cell_index : nat)
        (Hcode : cell_type c = "code")
        (Hno : Forall
                 (fun o =>
                    dict_get o "data" = None
                    \/ exists d, dict_get o "data" = Some (VDict d)
                                 /\ (dict_get d "text/latex" = None
                                     \/ exists v,
                                          dict_get d "text/latex" = Some v
                                          /\ truthy v = false))
                 (outputs c)) :
  preprocess_cell c res cell_index = Ok (c, res).
Proof.
  unfold preprocess_cell. rewrite Hcode.
  change (str_eqb "code" "markdown") with false.
  change (str_eqb "code" "code") with true. cbv iota.
  assert (Hm : mapM clean_output (outputs c) = Ok (outputs c)).
  { induction Hno as [|o l Ho Hl IH]; [reflexivity|].
    cbn [mapM]. rewrite IH.
    assert (Eo : clean_output o = Ok o).
    { unfold clean_output.
      destruct Ho as [-> | (d & -> & Hd)]; [reflexivity|]. cbn [bind].
      destruct Hd as [-> | (v & -> & ->)]; reflexivity. }
    now rewrite Eo. }
  rewrite Hm. cbn [bind]. rewrite <- Hcode. now destruct c.
Qed.

Lemma code_cell_without_latex_unchanged_witness :
  preprocess_cell
    (Cell "code" "print(1)"
          [[("output_type" : str, VStr "stream"); ("text" : str, VStr "1")];
           [("data" : str, VDict [("text/plain" : str, VStr "1")])]])
    example_resources 0
  = Ok (Cell "code" "print(1)"
             [[("output_type" : str, VStr "stream"); ("text" : str, VStr "1")];
              [("data" : str, VDict [("text/plain" : str, VStr "1")])]],
        example_resources).
Proof.
  apply (@code_cell_without_latex_unchanged
           (Cell "code" "print(1)"
                 [[("output_type" : str, VStr "stream"); ("text" : str, VStr "1")];
                  [("data" : str, VDict [("text/plain" : str, VStr "1")])]])
           example_resources 0).
  - reflexivity.
  - constructor; [left; reflexivity|].
    constructor; [|constructor].
    right. eexists. split; [reflexivity|]. left. reflexivity.
Defined.
